(** * ESP32 nerf turret: the timed fire controller of esp32_nerf_turret_gun.ino

    The sketch is embedded as a state monad over a [World]: the sketch's
    global variables, the actuator outputs (trigger servo, four motor-driver
    pins), the Serial log, the HTTP responses sent, and the number of
    [millis()] readings taken so far.  Every call to [millis()] in the source
    is one reading of the clock; the clock is an arbitrary function from the
    index of the reading to the time in milliseconds since start, so time may
    pass between any two readings.  [unsigned long] is 32 bits wide on the
    ESP32, and its arithmetic wraps modulo 2^32. *)

From Stdlib Require Import ZArith Bool List String Lia.
Import ListNotations.
Local Open Scope string_scope.
Local Open Scope Z_scope.

(** ** Machine arithmetic *)

Definition ULONG_MAX1 : Z := 2 ^ 32.

(** Conversion of a mathematical integer to [unsigned long]. *)
Definition wrap (x : Z) : Z := x mod ULONG_MAX1.

(** [a - b] on [unsigned long]. *)
Definition usub (a b : Z) : Z := wrap (a - b).

(** ** Constants of the sketch *)

Definition TRIGGER_SERVO_PIN : Z := 18.
Definition MOTOR1_A : Z := 12.
Definition MOTOR1_B : Z := 13.
Definition MOTOR2_A : Z := 14.
Definition MOTOR2_B : Z := 27.

Definition MOTOR_RUN_TIME : Z := 2000.
Definition FIRE_INTERVAL : Z := 500.
Definition TRIGGER_PRESS_TIME : Z := 200.

Definition HIGH : bool := true.
Definition LOW : bool := false.

(** ** Data model *)

(** The global variables of the sketch. *)
Record Ctl : Type := mkCtl {
  motorsRunning : bool;
  motorStartTime : Z;
  continuousMode : bool;
  isFiring : bool;
  lastFireTime : Z;
  triggerPressStartTime : Z;
  triggerPressed : bool
}.

(** The actuator outputs: the angle last written to the trigger servo and
    the level last written to each motor-driver pin. *)
Record Hw : Type := mkHw {
  servoAngle : Z;
  pinM1A : bool;
  pinM1B : bool;
  pinM2A : bool;
  pinM2B : bool
}.

(** One [server.send(code, content_type, body)]. *)
Record Response : Type := mkResponse {
  rcode : Z;
  rtype : string;
  rbody : string
}.

(** One call on [Serial]. *)
Inductive SerialOp : Type :=
| SPrint (s : string)
| SPrintln (s : string).

(** [serialOut] and [sent] are logs, the most recent entry first. *)
Record World : Type := mkWorld {
  ctl : Ctl;
  hw : Hw;
  serialOut : list SerialOp;
  sent : list Response;
  reads : nat
}.

(** A request on one of the four routes registered in [setup]; the
    [/continuous] route carries the value of its [mode] argument, when the
    request has one. *)
Inductive Request : Type :=
| ReqRoot
| ReqFire
| ReqContinuous (mode : option string)
| ReqStop.

(** ** The state monad *)

Definition M (A : Type) : Type := World -> A * World.

Definition ret {A} (a : A) : M A := fun w => (a, w).

Definition bind {A B} (m : M A) (k : A -> M B) : M B :=
  fun w => let (a, w') := m w in k a w'.

Declare Scope turret_scope.
Delimit Scope turret_scope with turret.
Notation "x <- m ;; k" := (bind m (fun x => k))
  (at level 61, m at next level, right associativity) : turret_scope.
Notation "m ;; k" := (bind m (fun _ => k))
  (at level 61, right associativity) : turret_scope.
Local Open Scope turret_scope.

Definition exec {A} (m : M A) (w : World) : World := snd (m w).

(** [if (c) { body }] *)
Definition when (c : M bool) (body : M unit) : M unit :=
  b <- c ;; if b then body else ret tt.

(** Short-circuit [a && b]: [b] is evaluated only when [a] is true. *)
Definition andM (a b : M bool) : M bool :=
  x <- a ;; if x then b else ret false.

(** Reading and writing the globals. *)
Definition rd {A} (f : Ctl -> A) : M A := fun w => (f (ctl w), w).

Definition upd (f : Ctl -> Ctl) : M unit :=
  fun w => (tt, mkWorld (f (ctl w)) (hw w) (serialOut w) (sent w) (reads w)).

Definition set_motorsRunning (v : bool) : M unit :=
  upd (fun c => mkCtl v (motorStartTime c) (continuousMode c) (isFiring c)
                      (lastFireTime c) (triggerPressStartTime c) (triggerPressed c)).
Definition set_motorStartTime (v : Z) : M unit :=
  upd (fun c => mkCtl (motorsRunning c) v (continuousMode c) (isFiring c)
                      (lastFireTime c) (triggerPressStartTime c) (triggerPressed c)).
Definition set_continuousMode (v : bool) : M unit :=
  upd (fun c => mkCtl (motorsRunning c) (motorStartTime c) v (isFiring c)
                      (lastFireTime c) (triggerPressStartTime c) (triggerPressed c)).
Definition set_isFiring (v : bool) : M unit :=
  upd (fun c => mkCtl (motorsRunning c) (motorStartTime c) (continuousMode c) v
                      (lastFireTime c) (triggerPressStartTime c) (triggerPressed c)).
Definition set_lastFireTime (v : Z) : M unit :=
  upd (fun c => mkCtl (motorsRunning c) (motorStartTime c) (continuousMode c) (isFiring c)
                      v (triggerPressStartTime c) (triggerPressed c)).
Definition set_triggerPressStartTime (v : Z) : M unit :=
  upd (fun c => mkCtl (motorsRunning c) (motorStartTime c) (continuousMode c) (isFiring c)
                      (lastFireTime c) v (triggerPressed c)).
Definition set_triggerPressed (v : bool) : M unit :=
  upd (fun c => mkCtl (motorsRunning c) (motorStartTime c) (continuousMode c) (isFiring c)
                      (lastFireTime c) (triggerPressStartTime c) v).

(** ** Peripherals *)

Definition updHw (f : Hw -> Hw) : M unit :=
  fun w => (tt, mkWorld (ctl w) (f (hw w)) (serialOut w) (sent w) (reads w)).

(** [triggerServo.write(angle)] *)
Definition triggerServo_write (angle : Z) : M unit :=
  updHw (fun h => mkHw angle (pinM1A h) (pinM1B h) (pinM2A h) (pinM2B h)).

(** [digitalWrite(pin, level)]; only the four motor pins are outputs. *)
Definition digitalWrite (pin : Z) (level : bool) : M unit :=
  updHw (fun h =>
    if pin =? MOTOR1_A then mkHw (servoAngle h) level (pinM1B h) (pinM2A h) (pinM2B h)
    else if pin =? MOTOR1_B then mkHw (servoAngle h) (pinM1A h) level (pinM2A h) (pinM2B h)
    else if pin =? MOTOR2_A then mkHw (servoAngle h) (pinM1A h) (pinM1B h) level (pinM2B h)
    else if pin =? MOTOR2_B then mkHw (servoAngle h) (pinM1A h) (pinM1B h) (pinM2A h) level
    else h).

Definition Serial_print (s : string) : M unit :=
  fun w => (tt, mkWorld (ctl w) (hw w) (SPrint s :: serialOut w) (sent w) (reads w)).

Definition Serial_println (s : string) : M unit :=
  fun w => (tt, mkWorld (ctl w) (hw w) (SPrintln s :: serialOut w) (sent w) (reads w)).

(** [server.send(code, content_type, body)] *)
Definition server_send (code : Z) (ty body : string) : M unit :=
  fun w => (tt, mkWorld (ctl w) (hw w) (serialOut w)
                        (mkResponse code ty body :: sent w) (reads w)).

Section Sketch.

(** [clock i] is the time, in milliseconds since start, at which the
    reading number [i] of [millis()] is taken. *)
Variable clock : nat -> Z.

(** [millis()]: the current time as an [unsigned long]. *)
Definition millis : M Z :=
  fun w => (wrap (clock (reads w)),
            mkWorld (ctl w) (hw w) (serialOut w) (sent w) (S (reads w))).

(** [millis() - reference > DURATION], the test of the three timers. *)
Definition elapsed_gt (reference : Ctl -> Z) (duration : Z) : M bool :=
  now <- millis ;;
  r <- rd reference ;;
  ret (duration <? usub now r).

(** ** The sketch's functions *)

Definition runMotors : M unit :=
  digitalWrite MOTOR1_A HIGH ;;
  digitalWrite MOTOR1_B LOW ;;
  digitalWrite MOTOR2_A HIGH ;;
  digitalWrite MOTOR2_B LOW ;;
  Serial_println "Motors started - flywheels spinning".

Definition stopMotors : M unit :=
  digitalWrite MOTOR1_A LOW ;;
  digitalWrite MOTOR1_B LOW ;;
  digitalWrite MOTOR2_A LOW ;;
  digitalWrite MOTOR2_B LOW ;;
  Serial_println "Motors stopped".

Definition fireSingleShot : M unit :=
  triggerServo_write 90 ;;
  set_triggerPressed true ;;
  now <- millis ;;
  set_triggerPressStartTime now ;;
  Serial_println "Trigger actuated - dart fired!".

Definition handleFire : M unit :=
  Serial_println "Single FIRE command received!" ;;
  runMotors ;;
  set_motorsRunning true ;;
  now <- millis ;;
  set_motorStartTime now ;;
  fireSingleShot ;;
  server_send 200 "text/plain" "SINGLE FIRE!".

(** [arg] is [Some v] when [server.hasArg("mode")], with [v] the value of
    [server.arg("mode")]. *)
Definition handleContinuous (arg : option string) : M unit :=
  match arg with
  | Some mode =>
      if String.eqb mode "start" then
        Serial_println "Starting continuous fire mode" ;;
        set_continuousMode true ;;
        set_isFiring true ;;
        runMotors ;;
        set_motorsRunning true ;;
        t1 <- millis ;;
        set_motorStartTime t1 ;;
        t2 <- millis ;;
        set_lastFireTime t2 ;;
        server_send 200 "text/plain" "CONTINUOUS FIRE STARTED"
      else if String.eqb mode "stop" then
        Serial_println "Stopping continuous fire mode" ;;
        set_continuousMode false ;;
        set_isFiring false ;;
        stopMotors ;;
        set_motorsRunning false ;;
        server_send 200 "text/plain" "CONTINUOUS FIRE STOPPED"
      else ret tt
  | None => server_send 400 "text/plain" "Missing mode parameter"
  end.

Definition handleStop : M unit :=
  Serial_println "Emergency stop command received!" ;;
  set_continuousMode false ;;
  set_isFiring false ;;
  stopMotors ;;
  set_motorsRunning false ;;
  triggerServo_write 0 ;;
  set_triggerPressed false ;;
  server_send 200 "text/plain" "STOPPED".

Definition root_html : string :=
  "<!DOCTYPE html><html><head><title>Nerf Turret Control</title><style>"
  ++ "body { font-family: Arial; text-align: center; margin: 50px; }"
  ++ "button { padding: 20px; margin: 10px; font-size: 18px; }"
  ++ ".fire-button { background-color: red; color: white; font-size: 24px; }"
  ++ "</style></head><body><h1>Nerf Turret Control</h1>"
  ++ "<button class='fire-button' onclick='singleFire()'>SINGLE FIRE</button><br><br>"
  ++ "<button class='fire-button' onclick='toggleContinuous()' id='continuousBtn'>START CONTINUOUS</button><br><br>"
  ++ "<button onclick='stopFiring()' style='background-color: orange; color: white;'>STOP FIRING</button>"
  ++ "<p>Motors: <span id='motorStatus'>Stopped</span></p>"
  ++ "<p>Fire Mode: <span id='fireMode'>Single</span></p>"
  ++ "<script>"
  ++ "let continuousMode = false;"
  ++ "function singleFire() { fetch('/fire'); document.getElementById('motorStatus').textContent = 'Single Fire!'; document.getElementById('fireMode').textContent = 'Single'; setTimeout(() => { document.getElementById('motorStatus').textContent = 'Stopped'; }, 2000); }"
  ++ "function toggleContinuous() { if (!continuousMode) { continuousMode = true; document.getElementById('continuousBtn').textContent = 'STOP CONTINUOUS'; document.getElementById('continuousBtn').style.backgroundColor = 'darkred'; document.getElementById('motorStatus').textContent = 'Continuous Fire!'; document.getElementById('fireMode').textContent = 'Continuous'; fetch('/continuous?mode=start'); } else { stopContinuous(); } }"
  ++ "function stopContinuous() { continuousMode = false; document.getElementById('continuousBtn').textContent = 'START CONTINUOUS'; document.getElementById('continuousBtn').style.backgroundColor = 'red'; document.getElementById('motorStatus').textContent = 'Stopped'; document.getElementById('fireMode').textContent = 'Single'; fetch('/continuous?mode=stop'); }"
  ++ "function stopFiring() { if (continuousMode) { stopContinuous(); } fetch('/stop').then(() => { document.getElementById('motorStatus').textContent = 'Stopped'; }); }"
  ++ "</script></body></html>".

Definition handleRoot : M unit :=
  server_send 200 "text/html" root_html.

(** [server.handleClient()]: runs the handler of the pending request, if
    there is one, through the routes registered in [setup]. *)
Definition server_handleClient (req : option Request) : M unit :=
  match req with
  | None => ret tt
  | Some ReqRoot => handleRoot
  | Some ReqFire => handleFire
  | Some (ReqContinuous arg) => handleContinuous arg
  | Some ReqStop => handleStop
  end.

(** The three timer blocks of [loop], in the order of the source. *)
Definition loop_cadence : M unit :=
  when (andM (rd continuousMode)
             (andM (rd isFiring) (elapsed_gt lastFireTime FIRE_INTERVAL)))
       (fireSingleShot ;;
        now <- millis ;;
        set_lastFireTime now).

Definition loop_release : M unit :=
  when (andM (rd triggerPressed)
             (elapsed_gt triggerPressStartTime TRIGGER_PRESS_TIME))
       (triggerServo_write 0 ;;
        set_triggerPressed false).

Definition loop_failsafe : M unit :=
  when (andM (c <- rd continuousMode ;; ret (negb c))
             (andM (rd motorsRunning) (elapsed_gt motorStartTime MOTOR_RUN_TIME)))
       (stopMotors ;;
        set_motorsRunning false ;;
        Serial_println "Motors stopped automatically").

Definition loop (req : option Request) : M unit :=
  server_handleClient req ;;
  loop_cadence ;;
  loop_release ;;
  loop_failsafe.

(** [setup()], from the state at power-on; [ip] is the address that
    [WiFi.softAPIP()] reports.  Attaching the servo, the pin modes and the
    access point have no effect on the state modelled here, and the routes
    registered are those of [server_handleClient]. *)
Definition setup (ip : string) : M unit :=
  triggerServo_write 0 ;;
  stopMotors ;;
  Serial_println "Access Point started" ;;
  Serial_print "AP IP address: " ;;
  Serial_println ip ;;
  Serial_println "Web server started".

End Sketch.

(** The globals as initialised at power-on, over arbitrary pin levels. *)
Definition power_on (h : Hw) : World :=
  mkWorld (mkCtl false 0 false false 0 0 false) h [] [] 0.

(** ** Runs of the sketch *)

(** One iteration of [loop], with the request pending at its start. *)
Definition step (clock : nat -> Z) (req : option Request) (w : World) : World :=
  exec (loop clock req) w.

(** Successive iterations of [loop]. *)
Definition run (clock : nat -> Z) (reqs : list (option Request)) (w : World) : World :=
  fold_left (fun w' req => step clock req w') reqs w.

(** The states the sketch can be in between two iterations of [loop]. *)
Inductive reachable (clock : nat -> Z) : World -> Prop :=
| reach_setup : forall h ip, reachable clock (exec (setup ip) (power_on h))
| reach_loop : forall w req, reachable clock w -> reachable clock (step clock req w).

(** The line that [fireSingleShot], and nothing else, prints. *)
Definition is_shot (op : SerialOp) : bool :=
  match op with
  | SPrintln s => String.eqb s "Trigger actuated - dart fired!"
  | SPrint _ => false
  end.

(** Number of trigger pulses issued so far. *)
Definition shots (w : World) : nat :=
  List.length (filter is_shot (serialOut w)).

(** Requests that stop the motors by command. *)
Definition is_stop (req : option Request) : bool :=
  match req with
  | Some ReqStop => true
  | Some (ReqContinuous (Some mode)) =>
      negb (String.eqb mode "start") && String.eqb mode "stop"
  | _ => false
  end.

(** Requests that issue a pulse or start the cadence. *)
Definition is_fire (req : option Request) : bool :=
  match req with
  | Some ReqFire => true
  | Some (ReqContinuous (Some mode)) => String.eqb mode "start"
  | _ => false
  end.

Definition motors_forward (h : Hw) : Prop :=
  pinM1A h = HIGH /\ pinM1B h = LOW /\ pinM2A h = HIGH /\ pinM2B h = LOW.

Definition motors_low (h : Hw) : Prop :=
  pinM1A h = LOW /\ pinM1B h = LOW /\ pinM2A h = LOW /\ pinM2B h = LOW.

(** Continuous fire is on and the flywheels are driven. *)
Definition continuous_on (w : World) : Prop :=
  continuousMode (ctl w) = true /\ isFiring (ctl w) = true /\
  motorsRunning (ctl w) = true /\ motors_forward (hw w).

(** The servo is at the fire angle exactly while [triggerPressed] holds. *)
Definition trigger_tracked (w : World) : Prop :=
  servoAngle (hw w) = if triggerPressed (ctl w) then 90 else 0.

(** [lastFireTime] holds a reading taken at index [p] or later. *)
Definition last_fire_since (clock : nat -> Z) (p : nat) (w : World) : Prop :=
  exists k, (p <= k < reads w)%nat /\ lastFireTime (ctl w) = wrap (clock k).

(** A piece of code that only ever stores a fresh reading in [lastFireTime]. *)
Definition stores_fresh (clock : nat -> Z) (f : World -> World) : Prop :=
  forall w,
    (reads w <= reads (f w))%nat /\
    (lastFireTime (ctl (f w)) = lastFireTime (ctl w) \/
     exists k, (reads w <= k < reads (f w))%nat /\
               lastFireTime (ctl (f w)) = wrap (clock k)).

(** The motor pins follow [motorsRunning]: the two A inputs are high exactly
    while the motors count as running, the two B inputs are low. *)
Definition pins_match (w : World) : Prop :=
  pinM1A (hw w) = motorsRunning (ctl w) /\ pinM1B (hw w) = LOW /\
  pinM2A (hw w) = motorsRunning (ctl w) /\ pinM2B (hw w) = LOW.

(** The two continuous-fire flags agree, and continuous fire has the motors
    running. *)
Definition mode_consistent (w : World) : Prop :=
  continuousMode (ctl w) = isFiring (ctl w) /\
  (continuousMode (ctl w) = true -> motorsRunning (ctl w) = true).

Definition consistent (w : World) : Prop := mode_consistent w /\ pins_match w.

(** Nothing is armed: no continuous fire, no motor run, no trigger pulse. *)
Definition at_rest (w : World) : Prop :=
  continuousMode (ctl w) = false /\ motorsRunning (ctl w) = false /\
  triggerPressed (ctl w) = false.

(** The request is served by [handleFire]. *)
Definition is_single_fire (req : option Request) : bool :=
  match req with
  | Some ReqFire => true
  | _ => false
  end.

(** [w] with another log of responses. *)
Definition with_sent (s : list Response) (w : World) : World :=
  mkWorld (ctl w) (hw w) (serialOut w) s (reads w).

(** The bodies of the responses the handlers send. *)
Definition known_body (b : string) : Prop :=
  b = root_html \/ b = "SINGLE FIRE!" \/ b = "CONTINUOUS FIRE STARTED" \/
  b = "CONTINUOUS FIRE STOPPED" \/ b = "Missing mode parameter" \/ b = "STOPPED".

(** The times stored for a pressed trigger and for running motors are
    readings of the clock already taken. *)
Definition times_recorded (clock : nat -> Z) (w : World) : Prop :=
  (triggerPressed (ctl w) = true ->
   exists j, (j < reads w)%nat /\ triggerPressStartTime (ctl w) = wrap (clock j)) /\
  (motorsRunning (ctl w) = true ->
   exists j, (j < reads w)%nat /\ motorStartTime (ctl w) = wrap (clock j)).

(** The world on which the release block, and the fail-safe block, of the
    iteration of [loop] from [w] with request [req] run. *)
Definition before_release (clock : nat -> Z) (req : option Request) (w : World) : World :=
  exec (loop_cadence clock) (exec (server_handleClient clock req) w).

Definition before_failsafe (clock : nat -> Z) (req : option Request) (w : World) : World :=
  exec (loop_release clock) (before_release clock req w).

(** Continuous fire is on, [lastFireTime] holds the reading number [k0],
    and the next reading of the clock comes at most [FIRE_INTERVAL + 2 * g]
    after it. *)
Definition cadence_pending (clock : nat -> Z) (g : Z) (k0 : nat) (w : World) : Prop :=
  continuousMode (ctl w) = true /\ isFiring (ctl w) = true /\
  lastFireTime (ctl w) = wrap (clock k0) /\
  (k0 <= reads w)%nat /\
  clock (reads w) - clock k0 <= FIRE_INTERVAL + 2 * g.

(** The test of the cadence block of [loop] on [w]. *)
Definition cadence_due (clock : nat -> Z) (w : World) : bool :=
  continuousMode (ctl w) && isFiring (ctl w) &&
  (FIRE_INTERVAL <? usub (wrap (clock (reads w))) (lastFireTime (ctl w))).

(** The world that [server.handleClient()] yields, by pending request. *)
Inductive client_case (clock : nat -> Z) (w : World) : option Request -> World -> Prop :=
| case_idle : client_case clock w None w
| case_root : client_case clock w (Some ReqRoot) (exec handleRoot w)
| case_fire : client_case clock w (Some ReqFire) (exec (handleFire clock) w)
| case_start :
    client_case clock w (Some (ReqContinuous (Some "start")))
                (exec (handleContinuous clock (Some "start")) w)
| case_stop :
    client_case clock w (Some (ReqContinuous (Some "stop")))
                (exec (handleContinuous clock (Some "stop")) w)
| case_other : forall mode,
    String.eqb mode "start" = false -> String.eqb mode "stop" = false ->
    client_case clock w (Some (ReqContinuous (Some mode))) w
| case_missing :
    client_case clock w (Some (ReqContinuous None)) (exec (handleContinuous clock None) w)
| case_estop : client_case clock w (Some ReqStop) (exec handleStop w).

(** ** Concrete scenarios *)

(** The board after [setup], all outputs low at power-on. *)
Definition hw_off : Hw := mkHw 0 LOW LOW LOW LOW.
Definition boot : World := exec (setup "192.168.4.1") (power_on hw_off).

(** A clock that advances one millisecond per reading, and one that
    advances a tenth of a second per reading. *)
Definition clock_ms (i : nat) : Z := Z.of_nat i.
Definition clock_100ms (i : nat) : Z := 100 * Z.of_nat i.

(** A clock of 100 ms per reading on which the loop stalls for a second
    between readings 10 and 11. *)
Definition clock_stall (i : nat) : Z :=
  if (i <? 11)%nat then 100 * Z.of_nat i else 100 * Z.of_nat i + 1000.

Definition cmd_start : option Request := Some (ReqContinuous (Some "start")).
Definition cmd_stop : option Request := Some (ReqContinuous (Some "stop")).
Definition cmd_fire : option Request := Some ReqFire.
Definition cmd_estop : option Request := Some ReqStop.
Definition idle : option Request := None.

(** ** Equations of the handlers *)

Arguments wrap : simpl never.
Arguments usub : simpl never.

(** Unfolds the monadic code of the sketch down to the worlds it builds,
    leaving the arithmetic alone. *)
Ltac run_code :=
  cbv beta iota zeta delta
    [step exec loop loop_cadence loop_release loop_failsafe server_handleClient
     handleRoot handleFire handleContinuous handleStop fireSingleShot
     runMotors stopMotors setup elapsed_gt millis when andM bind ret rd upd updHw
     set_motorsRunning set_motorStartTime set_continuousMode set_isFiring
     set_lastFireTime set_triggerPressStartTime set_triggerPressed
     triggerServo_write digitalWrite Serial_print Serial_println server_send
     MOTOR1_A MOTOR1_B MOTOR2_A MOTOR2_B HIGH LOW Z.eqb Pos.eqb
     fst snd ctl hw serialOut sent reads
     motorsRunning motorStartTime continuousMode isFiring lastFireTime
     triggerPressStartTime triggerPressed
     servoAngle pinM1A pinM1B pinM2A pinM2B negb].

Section Equations.
Variable clock : nat -> Z.

Lemma fireSingleShot_eq w :
  exec (fireSingleShot clock) w =
  mkWorld (mkCtl (motorsRunning (ctl w)) (motorStartTime (ctl w))
                 (continuousMode (ctl w)) (isFiring (ctl w)) (lastFireTime (ctl w))
                 (wrap (clock (reads w))) true)
          (mkHw 90 (pinM1A (hw w)) (pinM1B (hw w)) (pinM2A (hw w)) (pinM2B (hw w)))
          (SPrintln "Trigger actuated - dart fired!" :: serialOut w)
          (sent w) (S (reads w)).
Proof. reflexivity. Qed.

Lemma handleFire_eq w :
  exec (handleFire clock) w =
  mkWorld (mkCtl true (wrap (clock (reads w)))
                 (continuousMode (ctl w)) (isFiring (ctl w)) (lastFireTime (ctl w))
                 (wrap (clock (S (reads w)))) true)
          (mkHw 90 HIGH LOW HIGH LOW)
          (SPrintln "Trigger actuated - dart fired!"
           :: SPrintln "Motors started - flywheels spinning"
           :: SPrintln "Single FIRE command received!" :: serialOut w)
          (mkResponse 200 "text/plain" "SINGLE FIRE!" :: sent w)
          (S (S (reads w))).
Proof. reflexivity. Qed.

Lemma handleContinuous_start_eq w :
  exec (handleContinuous clock (Some "start")) w =
  mkWorld (mkCtl true (wrap (clock (reads w))) true true
                 (wrap (clock (S (reads w))))
                 (triggerPressStartTime (ctl w)) (triggerPressed (ctl w)))
          (mkHw (servoAngle (hw w)) HIGH LOW HIGH LOW)
          (SPrintln "Motors started - flywheels spinning"
           :: SPrintln "Starting continuous fire mode" :: serialOut w)
          (mkResponse 200 "text/plain" "CONTINUOUS FIRE STARTED" :: sent w)
          (S (S (reads w))).
Proof. reflexivity. Qed.

Lemma handleContinuous_stop_eq w :
  exec (handleContinuous clock (Some "stop")) w =
  mkWorld (mkCtl false (motorStartTime (ctl w)) false false
                 (lastFireTime (ctl w))
                 (triggerPressStartTime (ctl w)) (triggerPressed (ctl w)))
          (mkHw (servoAngle (hw w)) LOW LOW LOW LOW)
          (SPrintln "Motors stopped"
           :: SPrintln "Stopping continuous fire mode" :: serialOut w)
          (mkResponse 200 "text/plain" "CONTINUOUS FIRE STOPPED" :: sent w)
          (reads w).
Proof. reflexivity. Qed.

Lemma handleContinuous_other_eq mode w :
  String.eqb mode "start" = false ->
  String.eqb mode "stop" = false ->
  exec (handleContinuous clock (Some mode)) w = w.
Proof.
  intros H1 H2. unfold exec, handleContinuous. rewrite H1, H2. reflexivity.
Qed.

Lemma handleContinuous_missing_eq w :
  exec (handleContinuous clock None) w =
  mkWorld (ctl w) (hw w) (serialOut w)
          (mkResponse 400 "text/plain" "Missing mode parameter" :: sent w)
          (reads w).
Proof. reflexivity. Qed.

Lemma handleStop_eq w :
  exec handleStop w =
  mkWorld (mkCtl false (motorStartTime (ctl w)) false false
                 (lastFireTime (ctl w)) (triggerPressStartTime (ctl w)) false)
          (mkHw 0 LOW LOW LOW LOW)
          (SPrintln "Motors stopped"
           :: SPrintln "Emergency stop command received!" :: serialOut w)
          (mkResponse 200 "text/plain" "STOPPED" :: sent w)
          (reads w).
Proof. reflexivity. Qed.

Lemma handleRoot_eq w :
  exec handleRoot w =
  mkWorld (ctl w) (hw w) (serialOut w)
          (mkResponse 200 "text/html" root_html :: sent w) (reads w).
Proof. reflexivity. Qed.

Lemma setup_eq ip w :
  exec (setup ip) w =
  mkWorld (ctl w) (mkHw 0 LOW LOW LOW LOW)
          (SPrintln "Web server started" :: SPrintln ip
           :: SPrint "AP IP address: " :: SPrintln "Access Point started"
           :: SPrintln "Motors stopped" :: serialOut w)
          (sent w) (reads w).
Proof. reflexivity. Qed.

(** The cadence block: one reading for the test when continuous fire is on,
    two more when the shot is due. *)
Lemma loop_cadence_eq w :
  exec (loop_cadence clock) w =
  if continuousMode (ctl w) && isFiring (ctl w) then
    if FIRE_INTERVAL <? usub (wrap (clock (reads w))) (lastFireTime (ctl w)) then
      mkWorld (mkCtl (motorsRunning (ctl w)) (motorStartTime (ctl w))
                     (continuousMode (ctl w)) (isFiring (ctl w))
                     (wrap (clock (S (S (reads w)))))
                     (wrap (clock (S (reads w)))) true)
              (mkHw 90 (pinM1A (hw w)) (pinM1B (hw w)) (pinM2A (hw w)) (pinM2B (hw w)))
              (SPrintln "Trigger actuated - dart fired!" :: serialOut w)
              (sent w) (S (S (S (reads w))))
    else mkWorld (ctl w) (hw w) (serialOut w) (sent w) (S (reads w))
  else w.
Proof.
  destruct w as [[mr mst cm isf lft tpst tp] [sa a b c d] so se n].
  run_code. destruct cm, isf; try reflexivity.
  cbv beta iota delta [andb].
  destruct (FIRE_INTERVAL <? usub (wrap (clock n)) lft); reflexivity.
Qed.

Lemma loop_release_eq w :
  exec (loop_release clock) w =
  if triggerPressed (ctl w) then
    if TRIGGER_PRESS_TIME <? usub (wrap (clock (reads w))) (triggerPressStartTime (ctl w)) then
      mkWorld (mkCtl (motorsRunning (ctl w)) (motorStartTime (ctl w))
                     (continuousMode (ctl w)) (isFiring (ctl w))
                     (lastFireTime (ctl w)) (triggerPressStartTime (ctl w)) false)
              (mkHw 0 (pinM1A (hw w)) (pinM1B (hw w)) (pinM2A (hw w)) (pinM2B (hw w)))
              (serialOut w) (sent w) (S (reads w))
    else mkWorld (ctl w) (hw w) (serialOut w) (sent w) (S (reads w))
  else w.
Proof.
  destruct w as [[mr mst cm isf lft tpst tp] [sa a b c d] so se n].
  run_code. destruct tp; try reflexivity.
  destruct (TRIGGER_PRESS_TIME <? usub (wrap (clock n)) tpst); reflexivity.
Qed.

Lemma loop_failsafe_eq w :
  exec (loop_failsafe clock) w =
  if negb (continuousMode (ctl w)) && motorsRunning (ctl w) then
    if MOTOR_RUN_TIME <? usub (wrap (clock (reads w))) (motorStartTime (ctl w)) then
      mkWorld (mkCtl false (motorStartTime (ctl w))
                     (continuousMode (ctl w)) (isFiring (ctl w))
                     (lastFireTime (ctl w)) (triggerPressStartTime (ctl w))
                     (triggerPressed (ctl w)))
              (mkHw (servoAngle (hw w)) LOW LOW LOW LOW)
              (SPrintln "Motors stopped automatically"
               :: SPrintln "Motors stopped" :: serialOut w)
              (sent w) (S (reads w))
    else mkWorld (ctl w) (hw w) (serialOut w) (sent w) (S (reads w))
  else w.
Proof.
  destruct w as [[mr mst cm isf lft tpst tp] [sa a b c d] so se n].
  run_code. destruct cm, mr; try reflexivity.
  cbv beta iota delta [andb].
  destruct (MOTOR_RUN_TIME <? usub (wrap (clock n)) mst); reflexivity.
Qed.

Lemma step_eq req w :
  step clock req w =
  exec (loop_failsafe clock)
    (exec (loop_release clock)
       (exec (loop_cadence clock)
          (exec (server_handleClient clock req) w))).
Proof.
  unfold step, exec, loop, bind.
  destruct (server_handleClient clock req w) as [u1 w1]; cbn [snd].
  destruct (loop_cadence clock w1) as [u2 w2]; cbn [snd].
  destruct (loop_release clock w2) as [u3 w3]; cbn [snd].
  reflexivity.
Qed.

End Equations.

(** ** Arithmetic of the 32-bit clock *)

Lemma wrap_range x : 0 <= wrap x < ULONG_MAX1.
Proof. unfold wrap, ULONG_MAX1. apply Z.mod_pos_bound. reflexivity. Qed.

Lemma usub_wrap a b : usub (wrap a) (wrap b) = wrap (a - b).
Proof. unfold usub, wrap. symmetry. apply Zminus_mod. Qed.

Lemma wrap_small x : 0 <= x < ULONG_MAX1 -> wrap x = x.
Proof. intros H. unfold wrap. apply Z.mod_small. exact H. Qed.

Lemma wrap_le x : 0 <= x -> wrap x <= x.
Proof. intros H. unfold wrap, ULONG_MAX1. apply Z.mod_le; [exact H | reflexivity]. Qed.

(** A wrapped difference above [d] means that more than [d] milliseconds
    passed, when the later reading is not before the earlier one. *)
Lemma usub_gt_elapsed a b d :
  b <= a -> d < usub (wrap a) (wrap b) -> d < a - b.
Proof.
  intros Hab H. rewrite usub_wrap in H.
  pose proof (wrap_le (a - b)). lia.
Qed.

(** Within the range of the counter the wrapped difference is the time
    that passed. *)
Lemma usub_exact a b :
  0 <= a - b < ULONG_MAX1 -> usub (wrap a) (wrap b) = a - b.
Proof. intros H. rewrite usub_wrap. apply wrap_small. exact H. Qed.

(** ** Case analysis on the pending request *)

Section Cases.
Variable clock : nat -> Z.

Lemma server_handleClient_cases req w :
  client_case clock w req (exec (server_handleClient clock req) w).
Proof.
  destruct req as [[ | | [mode|] | ]|]; try constructor.
  destruct (String.eqb mode "start") eqn:E1.
  - apply String.eqb_eq in E1. subst mode. constructor.
  - destruct (String.eqb mode "stop") eqn:E2.
    + apply String.eqb_eq in E2. subst mode. constructor.
    + change (exec (server_handleClient clock (Some (ReqContinuous (Some mode)))) w)
        with (exec (handleContinuous clock (Some mode)) w).
      rewrite handleContinuous_other_eq by assumption.
      constructor; assumption.
Qed.

End Cases.

(** ** Emergency stop *)

(** C4: from every state, [handleStop] ends in the rest state: continuous
    mode and firing cleared, motors off with all four pins low, trigger
    released with the servo back at 0.  It reads no clock, so the release does
    not wait for the pulse timer, also when the trigger was pressed; the
    timers of the same iteration of [loop] then find nothing to do.  A second
    [handleStop] leaves the globals and the outputs as they are. *)
Theorem C4_emergency_stop_rest_idempotent :
  forall (clock : nat -> Z) (w : World),
    let w1 := exec handleStop w in
    continuousMode (ctl w1) = false /\
    isFiring (ctl w1) = false /\
    motorsRunning (ctl w1) = false /\
    motors_low (hw w1) /\
    triggerPressed (ctl w1) = false /\
    servoAngle (hw w1) = 0 /\
    reads w1 = reads w /\
    step clock (Some ReqStop) w = w1 /\
    ctl (exec handleStop w1) = ctl w1 /\
    hw (exec handleStop w1) = hw w1 /\
    ctl (step clock (Some ReqStop) w1) = ctl w1 /\
    hw (step clock (Some ReqStop) w1) = hw w1.
Proof.
  intros clock w w1. subst w1.
  assert (Hstep : forall u, step clock (Some ReqStop) u = exec handleStop u).
  { intros u. rewrite step_eq.
    change (exec (server_handleClient clock (Some ReqStop)) u) with (exec handleStop u).
    rewrite loop_cadence_eq, handleStop_eq. cbn [ctl continuousMode andb].
    rewrite loop_release_eq. cbn [ctl triggerPressed].
    rewrite loop_failsafe_eq. cbn [ctl continuousMode motorsRunning negb andb].
    reflexivity. }
  rewrite !Hstep. rewrite !handleStop_eq.
  unfold motors_low. cbn. repeat split; reflexivity.
Qed.

(** ** Responses *)

(** C9: a [/continuous] request without the [mode] argument is answered
    with the 400 response "Missing mode parameter" and changes nothing else:
    the globals, the outputs, the Serial log and the clock readings taken are
    those of before. *)
Theorem C9_missing_mode_rejected_unchanged :
  forall (clock : nat -> Z) (w : World),
    let w1 := exec (handleContinuous clock None) w in
    sent w1 = mkResponse 400 "text/plain" "Missing mode parameter" :: sent w /\
    ctl w1 = ctl w /\
    hw w1 = hw w /\
    serialOut w1 = serialOut w /\
    reads w1 = reads w.
Proof.
  intros clock w w1. subst w1. rewrite handleContinuous_missing_eq.
  cbn. repeat split; reflexivity.
Qed.

(** C10: [handleFire] leaves [continuousMode], [isFiring] and [lastFireTime]
    as they were; of the globals it writes only [motorsRunning],
    [motorStartTime], [triggerPressStartTime] and [triggerPressed].  So a
    single shot during continuous fire leaves continuous fire on. *)
Theorem C10_handleFire_frame :
  forall (clock : nat -> Z) (w : World),
    let w1 := exec (handleFire clock) w in
    continuousMode (ctl w1) = continuousMode (ctl w) /\
    isFiring (ctl w1) = isFiring (ctl w) /\
    lastFireTime (ctl w1) = lastFireTime (ctl w) /\
    ctl w1 = mkCtl true (wrap (clock (reads w)))
                   (continuousMode (ctl w)) (isFiring (ctl w)) (lastFireTime (ctl w))
                   (wrap (clock (S (reads w)))) true.
Proof.
  intros clock w w1. subst w1. rewrite handleFire_eq.
  cbn. repeat split; reflexivity.
Qed.

(** C8: each handler sends exactly one response, except [handleContinuous]
    on a [mode] that is neither "start" nor "stop": there it sends none, and
    does nothing at all.  At [mode = "toggle"] the world is unchanged. *)
Theorem C8_unknown_mode_sends_nothing :
  forall (clock : nat -> Z) (w : World),
    exec (handleContinuous clock (Some "toggle")) w = w /\
    sent (exec (handleContinuous clock (Some "toggle")) w) = sent w /\
    sent (exec (handleFire clock) w)
      = mkResponse 200 "text/plain" "SINGLE FIRE!" :: sent w /\
    sent (exec (handleContinuous clock (Some "start")) w)
      = mkResponse 200 "text/plain" "CONTINUOUS FIRE STARTED" :: sent w /\
    sent (exec (handleContinuous clock (Some "stop")) w)
      = mkResponse 200 "text/plain" "CONTINUOUS FIRE STOPPED" :: sent w /\
    sent (exec (handleContinuous clock None) w)
      = mkResponse 400 "text/plain" "Missing mode parameter" :: sent w /\
    sent (exec handleStop w)
      = mkResponse 200 "text/plain" "STOPPED" :: sent w.
Proof.
  intros clock w.
  assert (H : exec (handleContinuous clock (Some "toggle")) w = w)
    by (apply handleContinuous_other_eq; reflexivity).
  rewrite H. repeat split; reflexivity.
Qed.

(** ** The timer tests *)

Lemma shots_cons op w c h s n :
  shots (mkWorld c h (op :: serialOut w) s n)
  = if is_shot op then S (shots w) else shots w.
Proof. unfold shots. cbn [serialOut filter]. destruct (is_shot op); reflexivity. Qed.

Lemma shots_same w c h s n : shots (mkWorld c h (serialOut w) s n) = shots w.
Proof. reflexivity. Qed.

(** The three tests of [loop] at an elapsed time equal to the duration: one
    hundred milliseconds per reading, a single shot at reading 0, and the
    fail-safe test of the seventeenth iteration taken at 2000 ms exactly.
    The test is false and the motors keep running. *)
Lemma C5_counterexample :
  let w := run clock_100ms (cmd_fire :: repeat idle 15) boot in
  clock_100ms (reads w) - motorStartTime (ctl w) = MOTOR_RUN_TIME /\
  continuousMode (ctl w) = false /\
  motorsRunning (ctl w) = true /\
  triggerPressed (ctl w) = false /\
  fst (elapsed_gt clock_100ms motorStartTime MOTOR_RUN_TIME w) = false /\
  motorsRunning (ctl (step clock_100ms idle w)) = true /\
  ~ (fst (elapsed_gt clock_100ms motorStartTime MOTOR_RUN_TIME w) = true <->
     clock_100ms (reads w) - motorStartTime (ctl w) >= MOTOR_RUN_TIME).
Proof.
  vm_compute. repeat split; try reflexivity.
  intros [_ H]. assert (false = true) by (apply H; discriminate). discriminate.
Qed.

(** C5, amended: each timer test is [duration < now - reference], strictly,
    on 32-bit unsigned readings; the fail-safe, the trigger release and the
    cadence shot of [loop] happen exactly when their test holds.  As long as
    the counter has not wrapped since the reference, [now - reference] is the
    time that passed. *)
Theorem C5_timers_fire_strictly_after :
  forall (clock : nat -> Z) (w : World),
    let now := wrap (clock (reads w)) in
    (forall reference duration,
        fst (elapsed_gt clock reference duration w) = true <->
        duration < usub now (reference (ctl w))) /\
    (continuousMode (ctl w) = false -> motorsRunning (ctl w) = true ->
     (motorsRunning (ctl (exec (loop_failsafe clock) w)) = false <->
      MOTOR_RUN_TIME < usub now (motorStartTime (ctl w)))) /\
    (triggerPressed (ctl w) = true ->
     (triggerPressed (ctl (exec (loop_release clock) w)) = false <->
      TRIGGER_PRESS_TIME < usub now (triggerPressStartTime (ctl w)))) /\
    (continuousMode (ctl w) = true -> isFiring (ctl w) = true ->
     (shots (exec (loop_cadence clock) w) = S (shots w) <->
      FIRE_INTERVAL < usub now (lastFireTime (ctl w)))) /\
    (forall t0, 0 <= clock (reads w) - t0 < ULONG_MAX1 ->
                usub now (wrap t0) = clock (reads w) - t0).
Proof.
  intros clock w now. subst now. repeat split.
  - intros H. apply Z.ltb_lt. exact H.
  - intros H. apply Z.ltb_lt in H. exact H.
  - rewrite loop_failsafe_eq, H, H0. cbn [negb andb].
    destruct (Z.ltb_spec MOTOR_RUN_TIME
                (usub (wrap (clock (reads w))) (motorStartTime (ctl w))));
      cbn [ctl motorsRunning]; intros E; [assumption | congruence].
  - rewrite loop_failsafe_eq, H, H0. cbn [negb andb].
    intros E. apply Z.ltb_lt in E. rewrite E. reflexivity.
  - rewrite loop_release_eq, H.
    destruct (Z.ltb_spec TRIGGER_PRESS_TIME
                (usub (wrap (clock (reads w))) (triggerPressStartTime (ctl w))));
      cbn [ctl triggerPressed]; intros E; [assumption | congruence].
  - rewrite loop_release_eq, H.
    intros E. apply Z.ltb_lt in E. rewrite E. reflexivity.
  - rewrite loop_cadence_eq, H, H0. cbn [andb].
    destruct (Z.ltb_spec FIRE_INTERVAL
                (usub (wrap (clock (reads w))) (lastFireTime (ctl w))));
      intros E; [assumption |].
    rewrite shots_same in E. lia.
  - rewrite loop_cadence_eq, H, H0. cbn [andb].
    intros E. apply Z.ltb_lt in E. rewrite E.
    rewrite shots_cons. reflexivity.
  - intros t0 H. apply usub_exact. exact H.
Qed.

(** The tests of C5 on the state of the counterexample, one reading later:
    at 2100 ms the fail-safe test holds and the motors stop. *)
Lemma C5_timers_fire_strictly_after_witness :
  let w := run clock_100ms (cmd_fire :: repeat idle 16) boot in
  motorsRunning (ctl (exec (loop_failsafe clock_100ms) w)) = false <->
  MOTOR_RUN_TIME < usub (wrap (clock_100ms (reads w))) (motorStartTime (ctl w)).
Proof.
  intros w.
  apply (proj1 (proj2 (C5_timers_fire_strictly_after clock_100ms w)));
    vm_compute; reflexivity.
Defined.

Lemma run_cons clock req reqs w :
  run clock (req :: reqs) w = run clock reqs (step clock req w).
Proof. reflexivity. Qed.

Lemma run_app clock reqs1 reqs2 w :
  run clock (reqs1 ++ reqs2) w = run clock reqs2 (run clock reqs1 w).
Proof. unfold run. apply fold_left_app. Qed.

(** ** What each timer block leaves alone *)

Section Frames.
Variable clock : nat -> Z.

Lemma loop_cadence_frame w :
  let w1 := exec (loop_cadence clock) w in
  continuousMode (ctl w1) = continuousMode (ctl w) /\
  isFiring (ctl w1) = isFiring (ctl w) /\
  motorsRunning (ctl w1) = motorsRunning (ctl w) /\
  motorStartTime (ctl w1) = motorStartTime (ctl w) /\
  pinM1A (hw w1) = pinM1A (hw w) /\ pinM1B (hw w1) = pinM1B (hw w) /\
  pinM2A (hw w1) = pinM2A (hw w) /\ pinM2B (hw w1) = pinM2B (hw w) /\
  sent w1 = sent w.
Proof.
  cbv zeta. rewrite loop_cadence_eq.
  destruct (continuousMode (ctl w) && isFiring (ctl w));
    [destruct (FIRE_INTERVAL <? _)|]; cbn; repeat split; reflexivity.
Qed.

Lemma loop_cadence_off w :
  continuousMode (ctl w) = false -> exec (loop_cadence clock) w = w.
Proof. intros H. rewrite loop_cadence_eq, H. reflexivity. Qed.

Lemma loop_release_frame w :
  let w1 := exec (loop_release clock) w in
  continuousMode (ctl w1) = continuousMode (ctl w) /\
  isFiring (ctl w1) = isFiring (ctl w) /\
  motorsRunning (ctl w1) = motorsRunning (ctl w) /\
  motorStartTime (ctl w1) = motorStartTime (ctl w) /\
  lastFireTime (ctl w1) = lastFireTime (ctl w) /\
  pinM1A (hw w1) = pinM1A (hw w) /\ pinM1B (hw w1) = pinM1B (hw w) /\
  pinM2A (hw w1) = pinM2A (hw w) /\ pinM2B (hw w1) = pinM2B (hw w) /\
  serialOut w1 = serialOut w /\
  sent w1 = sent w.
Proof.
  cbv zeta. rewrite loop_release_eq.
  destruct (triggerPressed (ctl w));
    [destruct (TRIGGER_PRESS_TIME <? _)|]; cbn; repeat split; reflexivity.
Qed.

Lemma loop_failsafe_frame w :
  let w1 := exec (loop_failsafe clock) w in
  continuousMode (ctl w1) = continuousMode (ctl w) /\
  isFiring (ctl w1) = isFiring (ctl w) /\
  motorStartTime (ctl w1) = motorStartTime (ctl w) /\
  lastFireTime (ctl w1) = lastFireTime (ctl w) /\
  triggerPressStartTime (ctl w1) = triggerPressStartTime (ctl w) /\
  triggerPressed (ctl w1) = triggerPressed (ctl w) /\
  servoAngle (hw w1) = servoAngle (hw w) /\
  shots w1 = shots w /\
  sent w1 = sent w.
Proof.
  cbv zeta. rewrite loop_failsafe_eq.
  destruct (negb (continuousMode (ctl w)) && motorsRunning (ctl w));
    [destruct (MOTOR_RUN_TIME <? _)|]; cbn; repeat split; reflexivity.
Qed.

Lemma loop_failsafe_off w :
  continuousMode (ctl w) = true -> exec (loop_failsafe clock) w = w.
Proof. intros H. rewrite loop_failsafe_eq, H. reflexivity. Qed.

(** ** Continuous fire keeps the motors on *)

Lemma timers_keep_continuous_on w :
  continuous_on w ->
  continuous_on
    (exec (loop_failsafe clock) (exec (loop_release clock) (exec (loop_cadence clock) w))).
Proof.
  intros (Hc & Hf & Hm & Ha & Hb & Hc' & Hd).
  destruct (loop_cadence_frame w) as (c1 & c2 & c3 & _ & c5 & c6 & c7 & c8 & _).
  set (w1 := exec (loop_cadence clock) w) in *.
  destruct (loop_release_frame w1) as (r1 & r2 & r3 & _ & _ & r5 & r6 & r7 & r8 & _).
  set (w2 := exec (loop_release clock) w1) in *.
  rewrite loop_failsafe_off by congruence.
  unfold continuous_on, motors_forward. repeat split; congruence.
Qed.

Lemma step_keeps_continuous_on req w :
  is_stop req = false -> continuous_on w -> continuous_on (step clock req w).
Proof.
  intros Hreq Hon. rewrite step_eq. apply timers_keep_continuous_on.
  pose proof (server_handleClient_cases clock req w) as Hcase.
  set (w0 := exec (server_handleClient clock req) w) in *. clearbody w0.
  destruct Hcase; try exact Hon;
    try (cbn in Hreq; discriminate Hreq);
    destruct Hon as (Hc & Hf & Hm & Hp);
    unfold continuous_on, motors_forward in *.
  - rewrite handleFire_eq; cbn; tauto.
  - rewrite handleContinuous_start_eq; cbn; tauto.
Qed.

Lemma run_keeps_continuous_on reqs :
  forall w, Forall (fun req => is_stop req = false) reqs ->
            continuous_on w -> continuous_on (run clock reqs w).
Proof.
  induction reqs as [|req reqs IH]; intros w Hall Hon; [exact Hon|].
  inversion Hall; subst. rewrite run_cons.
  apply IH; [assumption|].
  apply step_keeps_continuous_on; assumption.
Qed.

Lemma start_turns_continuous_on w :
  continuous_on (step clock cmd_start w).
Proof.
  rewrite step_eq. apply timers_keep_continuous_on.
  change (exec (server_handleClient clock cmd_start) w)
    with (exec (handleContinuous clock (Some "start")) w).
  rewrite handleContinuous_start_eq.
  unfold continuous_on, motors_forward. cbn. tauto.
Qed.

End Frames.

(** C3: once a ContinuousStart has been served, the motors stay on and
    driven forward, and continuous fire stays on, through every run of
    iterations of [loop] whose requests are neither ContinuousStop nor
    EmergencyStop, whatever the clock reads; and while [continuousMode] is
    true the motor auto-stop block of [loop] does nothing at all. *)
Theorem C3_continuous_motors_never_auto_stop :
  forall (clock : nat -> Z) (w : World) (reqs : list (option Request)),
    Forall (fun req => is_stop req = false) reqs ->
    let w1 := run clock reqs (step clock cmd_start w) in
    continuousMode (ctl w1) = true /\
    motorsRunning (ctl w1) = true /\
    motors_forward (hw w1) /\
    exec (loop_failsafe clock) w1 = w1 /\
    (forall u, continuousMode (ctl u) = true -> exec (loop_failsafe clock) u = u).
Proof.
  intros clock w reqs Hall w1.
  assert (Hon : continuous_on w1).
  { apply run_keeps_continuous_on; [exact Hall | apply start_turns_continuous_on]. }
  destruct Hon as (Hc & _ & Hm & Hp).
  repeat split; try assumption; try apply Hp.
  - apply loop_failsafe_off; assumption.
  - intros u Hu. apply loop_failsafe_off; assumption.
Qed.

(** C3 on a run from [boot]: a single shot and thirty idle iterations after
    the start, three seconds on a clock of 100 ms per reading. *)
Lemma C3_continuous_motors_never_auto_stop_witness :
  let w1 := run clock_100ms (cmd_fire :: repeat idle 30)
                (step clock_100ms cmd_start boot) in
  MOTOR_RUN_TIME < clock_100ms (reads w1) - motorStartTime (ctl w1) /\
  continuousMode (ctl w1) = true /\
  motorsRunning (ctl w1) = true /\
  motors_forward (hw w1).
Proof.
  split; [vm_compute; reflexivity|].
  pose proof (C3_continuous_motors_never_auto_stop clock_100ms boot
                (cmd_fire :: repeat idle 30)) as H.
  cbv zeta in H.
  destruct H as (H1 & H2 & H3 & _).
  - repeat constructor.
  - cbv zeta. auto.
Defined.

(** ** Continuous fire: first shot and stop *)

Section Cadence.
Variable clock : nat -> Z.

Lemma loop_cadence_shots w :
  shots (exec (loop_cadence clock) w)
  = if cadence_due clock w then S (shots w) else shots w.
Proof.
  rewrite loop_cadence_eq. unfold cadence_due.
  destruct (continuousMode (ctl w) && isFiring (ctl w)); [|reflexivity].
  cbn [andb]. destruct (FIRE_INTERVAL <? _); reflexivity.
Qed.

Lemma timers_no_shot w :
  continuousMode (ctl w) = false ->
  let w1 := exec (loop_failsafe clock)
              (exec (loop_release clock) (exec (loop_cadence clock) w)) in
  continuousMode (ctl w1) = false /\ shots w1 = shots w.
Proof.
  intros Hc. cbv zeta. rewrite (loop_cadence_off clock w Hc).
  destruct (loop_release_frame clock w) as (r1 & _ & _ & _ & _ & _ & _ & _ & _ & r2 & _).
  set (w1 := exec (loop_release clock) w) in *.
  destruct (loop_failsafe_frame clock w1) as (f1 & _ & _ & _ & _ & _ & _ & f2 & _).
  split; [congruence|].
  rewrite f2. unfold shots. rewrite r2. reflexivity.
Qed.

Lemma step_no_shot req w :
  is_fire req = false -> continuousMode (ctl w) = false ->
  continuousMode (ctl (step clock req w)) = false /\
  shots (step clock req w) = shots w.
Proof.
  intros Hreq Hc. rewrite step_eq.
  pose proof (server_handleClient_cases clock req w) as Hcase.
  set (w0 := exec (server_handleClient clock req) w) in *.
  assert (H0 : continuousMode (ctl w0) = false /\ shots w0 = shots w).
  { clearbody w0. destruct Hcase; try (split; [exact Hc | reflexivity]);
      try (cbn in Hreq; discriminate Hreq); split; reflexivity. }
  destruct H0 as [H1 H2].
  destruct (timers_no_shot w0 H1) as [H3 H4].
  split; congruence.
Qed.


Lemma step_stop_eq w :
  step clock cmd_stop w
  = exec (loop_release clock) (exec (handleContinuous clock (Some "stop")) w).
Proof.
  rewrite step_eq.
  change (exec (server_handleClient clock cmd_stop) w)
    with (exec (handleContinuous clock (Some "stop")) w).
  set (w0 := exec (handleContinuous clock (Some "stop")) w).
  assert (Hc : continuousMode (ctl w0) = false) by reflexivity.
  assert (Hm : motorsRunning (ctl w0) = false) by reflexivity.
  rewrite (loop_cadence_off clock w0 Hc).
  destruct (loop_release_frame clock w0) as (_ & _ & r3 & _).
  rewrite loop_failsafe_eq, r3, Hm, andb_false_r. reflexivity.
Qed.

End Cadence.




(** ** The trigger pulse *)

Section Trigger.
Variable clock : nat -> Z.

Lemma timers_keep_trigger_tracked w :
  trigger_tracked w ->
  trigger_tracked
    (exec (loop_failsafe clock) (exec (loop_release clock) (exec (loop_cadence clock) w))).
Proof.
  intros H.
  assert (H1 : trigger_tracked (exec (loop_cadence clock) w)).
  { rewrite loop_cadence_eq.
    destruct (continuousMode (ctl w) && isFiring (ctl w));
      [destruct (FIRE_INTERVAL <? _)|]; try exact H; reflexivity. }
  set (w1 := exec (loop_cadence clock) w) in *.
  assert (H2 : trigger_tracked (exec (loop_release clock) w1)).
  { rewrite loop_release_eq.
    destruct (triggerPressed (ctl w1)) eqn:E;
      [destruct (TRIGGER_PRESS_TIME <? _)|]; try exact H1; reflexivity. }
  set (w2 := exec (loop_release clock) w1) in *.
  destruct (loop_failsafe_frame clock w2) as (_ & _ & _ & _ & _ & f1 & f2 & _).
  unfold trigger_tracked in *. rewrite f1, f2. exact H2.
Qed.

Lemma step_keeps_trigger_tracked req w :
  trigger_tracked w -> trigger_tracked (step clock req w).
Proof.
  intros H. rewrite step_eq. apply timers_keep_trigger_tracked.
  pose proof (server_handleClient_cases clock req w) as Hcase.
  set (w0 := exec (server_handleClient clock req) w) in *. clearbody w0.
  destruct Hcase; try exact H; reflexivity.
Qed.

Lemma reachable_trigger_tracked w :
  reachable clock w -> trigger_tracked w.
Proof.
  induction 1 as [h ip | w req Hw IH].
  - reflexivity.
  - apply step_keeps_trigger_tracked. exact IH.
Qed.

Lemma reachable_run reqs :
  forall w, reachable clock w -> reachable clock (run clock reqs w).
Proof.
  induction reqs as [|req reqs IH]; intros w Hw; [exact Hw|].
  rewrite run_cons. apply IH. apply reach_loop. exact Hw.
Qed.

End Trigger.

Lemma reachable_boot clock : reachable clock boot.
Proof. unfold boot. apply reach_setup. Qed.

(** Two pulses issued while the trigger is pressed, both in reachable
    states.  On a clock of 1 ms per reading a second FireSingle is served
    while the pulse of the first is active.  On a clock of 100 ms per reading
    that stalls for a second after the first cadence shot, the next iteration
    of [loop] fires the cadence shot before it releases the trigger. *)
Lemma C1_counterexample :
  let w1 := step clock_ms cmd_fire boot in
  let w2 := run clock_stall (cmd_start :: repeat idle 5) boot in
  (reachable clock_ms w1 /\
   triggerPressed (ctl w1) = true /\
   shots (step clock_ms cmd_fire w1) = S (shots w1)) /\
  (reachable clock_stall w2 /\
   triggerPressed (ctl w2) = true /\
   shots (step clock_stall idle w2) = S (shots w2)).
Proof.
  intros w1 w2. split; split.
  - subst w1. apply reach_loop. apply reachable_boot.
  - vm_compute. split; reflexivity.
  - subst w2. apply reachable_run. apply reachable_boot.
  - vm_compute. split; reflexivity.
Qed.

(** C1, amended: in every reachable state one pulse at most is tracked: the
    servo is at the fire angle exactly when [triggerPressed] is true, and
    that still holds after any iteration of [loop].  [fireSingleShot] has no
    test of [triggerPressed]: a FireSingle, and a cadence shot that is due,
    issue a pulse also when the trigger is pressed, and the new pulse takes
    the place of the active one ([triggerPressed] stays true and
    [triggerPressStartTime] becomes the new reading). *)
Theorem C1_one_tracked_pulse_restarted :
  forall (clock : nat -> Z) (w : World) (req : option Request),
    reachable clock w ->
    trigger_tracked w /\
    trigger_tracked (step clock req w) /\
    (let w1 := exec (fireSingleShot clock) w in
     shots w1 = S (shots w) /\
     triggerPressed (ctl w1) = true /\
     servoAngle (hw w1) = 90 /\
     triggerPressStartTime (ctl w1) = wrap (clock (reads w))) /\
    shots (exec (handleFire clock) w) = S (shots w) /\
    (cadence_due clock w = true ->
     shots (exec (loop_cadence clock) w) = S (shots w) /\
     triggerPressed (ctl (exec (loop_cadence clock) w)) = true /\
     triggerPressStartTime (ctl (exec (loop_cadence clock) w))
       = wrap (clock (S (reads w)))).
Proof.
  intros clock w req Hw.
  pose proof (reachable_trigger_tracked clock w Hw) as Ht.
  split; [exact Ht|].
  split; [apply step_keeps_trigger_tracked; exact Ht|].
  split; [repeat split|].
  split; [reflexivity|].
  intros Hdue. rewrite loop_cadence_shots, Hdue.
  rewrite loop_cadence_eq. unfold cadence_due in Hdue.
  apply andb_prop in Hdue. destruct Hdue as [H1 H2]. rewrite H1, H2.
  repeat split.
Qed.

(** C1 on the state after one FireSingle from [boot]: the trigger is
    pressed, and a second shot restarts the pulse. *)
Lemma C1_one_tracked_pulse_restarted_witness :
  let w := step clock_ms cmd_fire boot in
  triggerPressed (ctl w) = true /\
  trigger_tracked w /\
  shots (exec (handleFire clock_ms) w) = S (shots w).
Proof.
  split; [vm_compute; reflexivity|].
  pose proof (C1_one_tracked_pulse_restarted clock_ms
                (step clock_ms cmd_fire boot) idle) as H.
  destruct H as (H1 & _ & _ & H2 & _).
  - apply reach_loop. apply reachable_boot.
  - split; [exact H1 | exact H2].
Defined.

(** ** The motor fail-safe *)

Section FailSafe.
Variable clock : nat -> Z.

Lemma loop_release_reads w :
  (reads w <= reads (exec (loop_release clock) w) <= S (reads w))%nat.
Proof.
  rewrite loop_release_eq.
  destruct (triggerPressed (ctl w)); [destruct (TRIGGER_PRESS_TIME <? _)|];
    cbn [reads]; lia.
Qed.

(** Single-shot state with the motors started at [t0]: continuous fire is
    off, and the pins are low once the motors count as stopped. *)
Lemma single_shot_state_after_timers (t0 : Z) w :
  continuousMode (ctl w) = false ->
  motorStartTime (ctl w) = wrap t0 ->
  (motorsRunning (ctl w) = false -> motors_low (hw w)) ->
  let w1 := exec (loop_failsafe clock)
              (exec (loop_release clock) (exec (loop_cadence clock) w)) in
  continuousMode (ctl w1) = false /\
  motorStartTime (ctl w1) = wrap t0 /\
  (motorsRunning (ctl w1) = false -> motors_low (hw w1)).
Proof.
  intros Hc Ht Hlow. cbv zeta. rewrite (loop_cadence_off clock w Hc).
  destruct (loop_release_frame clock w)
    as (r1 & _ & r3 & r4 & _ & p1 & p2 & p3 & p4 & _).
  set (w1 := exec (loop_release clock) w) in *.
  destruct (loop_failsafe_frame clock w1) as (f1 & _ & f3 & _).
  split; [congruence|]. split; [congruence|].
  rewrite loop_failsafe_eq.
  destruct (negb (continuousMode (ctl w1)) && motorsRunning (ctl w1)) eqn:E;
    [destruct (MOTOR_RUN_TIME <? _)|].
  - intros _. unfold motors_low. cbn. tauto.
  - cbn [ctl hw]. apply andb_prop in E. destruct E as [_ E]. congruence.
  - rewrite r1, Hc in E. cbn [negb andb] in E.
    intros _. unfold motors_low in *. rewrite p1, p2, p3, p4. apply Hlow. congruence.
Qed.

Lemma single_shot_state_run (t0 : Z) n :
  forall w,
    continuousMode (ctl w) = false ->
    motorStartTime (ctl w) = wrap t0 ->
    (motorsRunning (ctl w) = false -> motors_low (hw w)) ->
    let w1 := run clock (repeat idle n) w in
    continuousMode (ctl w1) = false /\
    motorStartTime (ctl w1) = wrap t0 /\
    (motorsRunning (ctl w1) = false -> motors_low (hw w1)).
Proof.
  induction n as [|n IH]; intros w Hc Ht Hlow; [cbn; tauto|].
  cbn [repeat]. rewrite run_cons. cbv zeta.
  destruct (single_shot_state_after_timers t0 w Hc Ht Hlow) as (H1 & H2 & H3).
  apply IH; rewrite step_eq; assumption.
Qed.

End FailSafe.

(** A single shot during continuous fire, on a clock of 100 ms per
    reading: forty idle iterations later, 8.4 s after the shot, the motors
    are still running. *)
Lemma C2_counterexample :
  let w := run clock_100ms (cmd_start :: cmd_fire :: repeat idle 40) boot in
  motorsRunning (ctl w) = true /\
  motors_forward (hw w) /\
  motorStartTime (ctl w) = 300 /\
  clock_100ms (reads w) = 8700 /\
  MOTOR_RUN_TIME < clock_100ms (reads w) - motorStartTime (ctl w).
Proof. vm_compute. repeat split; reflexivity. Qed.

(** C2, amended: when continuous fire is off as the FireSingle is served
    and no command follows, an iteration of [loop] all of whose clock readings
    are more than [MOTOR_RUN_TIME] and less than 2^32 ms after the reading
    stored by the shot ends with the motors stopped and all four pins low. *)
Theorem C2_single_shot_fail_safe :
  forall (clock : nat -> Z) (w : World) (n : nat),
    continuousMode (ctl w) = false ->
    let w1 := step clock cmd_fire w in
    let w2 := run clock (repeat idle n) w1 in
    let w3 := step clock idle w2 in
    (forall k, (reads w2 <= k < reads w3)%nat ->
               MOTOR_RUN_TIME < clock k - clock (reads w) < ULONG_MAX1) ->
    motorStartTime (ctl w2) = wrap (clock (reads w)) /\
    motorsRunning (ctl w3) = false /\
    motors_low (hw w3).
Proof.
  intros clock w n Hc w1 w2 w3 Hwin.
  assert (H1 : continuousMode (ctl w1) = false /\
               motorStartTime (ctl w1) = wrap (clock (reads w)) /\
               (motorsRunning (ctl w1) = false -> motors_low (hw w1))).
  { subst w1. rewrite step_eq.
    change (exec (server_handleClient clock cmd_fire) w)
      with (exec (handleFire clock) w).
    rewrite handleFire_eq.
    apply single_shot_state_after_timers; cbn [ctl continuousMode motorStartTime motorsRunning].
    - exact Hc.
    - reflexivity.
    - intros H. discriminate H. }
  destruct H1 as (Hc1 & Ht1 & Hl1).
  destruct (single_shot_state_run clock (clock (reads w)) n w1 Hc1 Ht1 Hl1)
    as (Hc2 & Ht2 & Hl2).
  fold w2 in Hc2, Ht2, Hl2.
  split; [exact Ht2|].
  assert (E3 : w3 = exec (loop_failsafe clock) (exec (loop_release clock) w2)).
  { subst w3. rewrite step_eq.
    change (exec (server_handleClient clock idle) w2) with w2.
    rewrite (loop_cadence_off clock w2 Hc2). reflexivity. }
  pose proof (loop_release_reads clock w2) as Hr.
  destruct (loop_release_frame clock w2)
    as (r1 & _ & r3 & r4 & _ & p1 & p2 & p3 & p4 & _).
  set (wr := exec (loop_release clock) w2) in *.
  rewrite loop_failsafe_eq in E3. rewrite r1, Hc2, r3 in E3. cbn [negb andb] in E3.
  destruct (motorsRunning (ctl w2)) eqn:Em.
  - assert (Hk : MOTOR_RUN_TIME < clock (reads wr) - clock (reads w) < ULONG_MAX1).
    { apply Hwin. rewrite E3.
      destruct (MOTOR_RUN_TIME <? _); cbn [reads]; lia. }
    rewrite r4, Ht2, usub_exact in E3 by (unfold MOTOR_RUN_TIME in Hk; lia).
    destruct (Z.ltb_spec MOTOR_RUN_TIME (clock (reads wr) - clock (reads w))) as [_|Hn];
      [|lia].
    rewrite E3. unfold motors_low. cbn. tauto.
  - rewrite E3. split; [congruence|].
    unfold motors_low in *. rewrite p1, p2, p3, p4. apply Hl2. reflexivity.
Qed.

(** C2 on a single shot from [boot] at 100 ms per reading: the eighteenth
    idle iteration after the shot reads the clock at 2100 ms and stops the
    motors. *)
Lemma C2_single_shot_fail_safe_witness :
  let w2 := run clock_100ms (repeat idle 16) (step clock_100ms cmd_fire boot) in
  let w3 := step clock_100ms idle w2 in
  motorsRunning (ctl w2) = true /\
  motorsRunning (ctl w3) = false /\
  motors_low (hw w3).
Proof.
  split; [vm_compute; reflexivity|].
  pose proof (C2_single_shot_fail_safe clock_100ms boot 16) as H.
  cbv zeta in H.
  destruct H as (_ & H1 & H2).
  - reflexivity.
  - intros k Hk.
    assert (E : k = 21%nat) by (vm_compute in Hk; lia).
    subst k. vm_compute. split; reflexivity.
  - cbv zeta. split; [exact H1 | exact H2].
Defined.

(** ** Spacing of the cadence shots *)

Section Spacing.
Variable clock : nat -> Z.

Lemma stores_fresh_keeps p f w :
  stores_fresh clock f -> last_fire_since clock p w -> last_fire_since clock p (f w).
Proof.
  intros Hf (k & Hk & E). destruct (Hf w) as [Hr [Hsame | (k' & Hk' & E')]].
  - exists k. split; [lia | congruence].
  - exists k'. split; [lia | exact E'].
Qed.

Lemma loop_cadence_fresh : stores_fresh clock (exec (loop_cadence clock)).
Proof.
  intros w. rewrite loop_cadence_eq.
  destruct (continuousMode (ctl w) && isFiring (ctl w));
    [destruct (FIRE_INTERVAL <? _)|]; cbn [reads ctl lastFireTime].
  - split; [lia|]. right. exists (S (S (reads w))). split; [lia | reflexivity].
  - split; [lia|]. left. reflexivity.
  - split; [lia|]. left. reflexivity.
Qed.

Lemma loop_release_fresh : stores_fresh clock (exec (loop_release clock)).
Proof.
  intros w. pose proof (loop_release_reads clock w).
  destruct (loop_release_frame clock w) as (_ & _ & _ & _ & r & _).
  split; [lia | left; exact r].
Qed.

Lemma loop_failsafe_fresh : stores_fresh clock (exec (loop_failsafe clock)).
Proof.
  intros w. destruct (loop_failsafe_frame clock w) as (_ & _ & _ & r & _).
  split; [|left; exact r].
  rewrite loop_failsafe_eq.
  destruct (negb (continuousMode (ctl w)) && motorsRunning (ctl w));
    [destruct (MOTOR_RUN_TIME <? _)|]; cbn [reads]; lia.
Qed.

Lemma server_handleClient_fresh req :
  stores_fresh clock (exec (server_handleClient clock req)).
Proof.
  intros w.
  pose proof (server_handleClient_cases clock req w) as Hcase.
  set (w0 := exec (server_handleClient clock req) w) in *. clearbody w0.
  destruct Hcase; try (split; [apply Nat.le_refl | left; reflexivity]).
  - rewrite handleFire_eq. cbn [reads ctl lastFireTime].
    split; [lia | left; reflexivity].
  - rewrite handleContinuous_start_eq. cbn [reads ctl lastFireTime].
    split; [lia|]. right. exists (S (reads w)). split; [lia | reflexivity].
Qed.

Lemma step_keeps_last_fire_since p req w :
  last_fire_since clock p w -> last_fire_since clock p (step clock req w).
Proof.
  intros H. rewrite step_eq.
  apply stores_fresh_keeps; [apply loop_failsafe_fresh|].
  apply stores_fresh_keeps; [apply loop_release_fresh|].
  apply stores_fresh_keeps; [apply loop_cadence_fresh|].
  apply stores_fresh_keeps; [apply server_handleClient_fresh|].
  exact H.
Qed.

Lemma run_keeps_last_fire_since p reqs :
  forall w, last_fire_since clock p w -> last_fire_since clock p (run clock reqs w).
Proof.
  induction reqs as [|req reqs IH]; intros w H; [exact H|].
  rewrite run_cons. apply IH. apply step_keeps_last_fire_since. exact H.
Qed.

(** A cadence shot is issued only when the test of the block holds. *)
Lemma cadence_shot_due w :
  shots (exec (loop_cadence clock) w) = S (shots w) -> cadence_due clock w = true.
Proof.
  rewrite loop_cadence_shots. destruct (cadence_due clock w); [reflexivity | lia].
Qed.

End Spacing.

(** On a clock that never goes back, two shots issued by the cadence block
    of [loop] are more than [FIRE_INTERVAL] apart, whatever requests and
    iterations come between them. *)
Lemma cadence_shots_far_apart :
  forall (clock : nat -> Z) (w : World)
         (req : option Request) (reqs : list (option Request)) (req' : option Request),
    (forall i j, (i <= j)%nat -> clock i <= clock j) ->
    let wa := exec (server_handleClient clock req) w in
    let wb := exec (server_handleClient clock req')
                   (run clock reqs (step clock req w)) in
    shots (exec (loop_cadence clock) wa) = S (shots wa) ->
    shots (exec (loop_cadence clock) wb) = S (shots wb) ->
    triggerPressStartTime (ctl (exec (loop_cadence clock) wa))
      = wrap (clock (S (reads wa))) /\
    triggerPressStartTime (ctl (exec (loop_cadence clock) wb))
      = wrap (clock (S (reads wb))) /\
    FIRE_INTERVAL < clock (S (reads wb)) - clock (S (reads wa)) /\
    (forall i j,
        (reads wa <= i < reads (exec (loop_cadence clock) wa))%nat ->
        (reads wb <= j < reads (exec (loop_cadence clock) wb))%nat ->
        FIRE_INTERVAL < clock j - clock i).
Proof.
  intros clock w req reqs req' Hmono wa wb Ha Hb.
  apply cadence_shot_due in Ha. apply cadence_shot_due in Hb.
  pose proof Ha as Ha'. pose proof Hb as Hb'.
  unfold cadence_due in Ha', Hb'.
  apply andb_prop in Ha'. destruct Ha' as [Ha1 Ha2].
  apply andb_prop in Hb'. destruct Hb' as [Hb1 Hb2].
  assert (Ea : exec (loop_cadence clock) wa =
               mkWorld (mkCtl (motorsRunning (ctl wa)) (motorStartTime (ctl wa))
                              (continuousMode (ctl wa)) (isFiring (ctl wa))
                              (wrap (clock (S (S (reads wa)))))
                              (wrap (clock (S (reads wa)))) true)
                       (mkHw 90 (pinM1A (hw wa)) (pinM1B (hw wa))
                             (pinM2A (hw wa)) (pinM2B (hw wa)))
                       (SPrintln "Trigger actuated - dart fired!" :: serialOut wa)
                       (sent wa) (S (S (S (reads wa))))).
  { rewrite loop_cadence_eq, Ha1, Ha2. reflexivity. }
  assert (Eb : reads (exec (loop_cadence clock) wb) = S (S (S (reads wb))) /\
               triggerPressStartTime (ctl (exec (loop_cadence clock) wb))
               = wrap (clock (S (reads wb)))).
  { rewrite loop_cadence_eq, Hb1, Hb2. split; reflexivity. }
  destruct Eb as [Eb1 Eb2].
  assert (Hinv : last_fire_since clock (S (S (reads wa))) wb).
  { subst wb.
    apply stores_fresh_keeps; [apply server_handleClient_fresh|].
    apply run_keeps_last_fire_since.
    rewrite step_eq. fold wa.
    apply stores_fresh_keeps; [apply loop_failsafe_fresh|].
    apply stores_fresh_keeps; [apply loop_release_fresh|].
    rewrite Ea. exists (S (S (reads wa))). cbn [reads ctl lastFireTime].
    split; [lia | reflexivity]. }
  destruct Hinv as (k & Hk & Ek).
  rewrite Ek in Hb2. apply Z.ltb_lt in Hb2.
  apply usub_gt_elapsed in Hb2; [|apply Hmono; lia].
  assert (Hgen : forall i j, (i <= S (S (reads wa)))%nat -> (reads wb <= j)%nat ->
                             FIRE_INTERVAL < clock j - clock i).
  { intros i j Hi Hj.
    pose proof (Hmono i k ltac:(lia)). pose proof (Hmono (reads wb) j Hj). lia. }
  split; [rewrite Ea; reflexivity|].
  split; [exact Eb2|].
  split; [apply Hgen; lia|].
  intros i j Hi Hj. rewrite Ea in Hi. cbn [reads] in Hi. apply Hgen; lia.
Qed.

(** ** Invariants of the reachable states *)

Section Consistency.
Variable clock : nat -> Z.

Lemma timers_keep_consistent w :
  consistent w ->
  consistent
    (exec (loop_failsafe clock) (exec (loop_release clock) (exec (loop_cadence clock) w))).
Proof.
  intros [[Hm1 Hm2] (Hp1 & Hp2 & Hp3 & Hp4)].
  destruct (loop_cadence_frame clock w) as (c1 & c2 & c3 & _ & c5 & c6 & c7 & c8 & _).
  set (w1 := exec (loop_cadence clock) w) in *.
  destruct (loop_release_frame clock w1)
    as (r1 & r2 & r3 & _ & _ & r5 & r6 & r7 & r8 & _).
  set (w2 := exec (loop_release clock) w1) in *.
  assert (H2 : consistent w2).
  { unfold consistent, mode_consistent, pins_match.
    rewrite r1, r2, r3, r5, r6, r7, r8, c1, c2, c3, c5, c6, c7, c8. tauto. }
  clearbody w2. clear - H2.
  destruct H2 as [[Hm1 Hm2] (Hp1 & Hp2 & Hp3 & Hp4)].
  rewrite loop_failsafe_eq.
  destruct (continuousMode (ctl w2)) eqn:Ec; cbn [negb andb].
  - unfold consistent, mode_consistent, pins_match. rewrite Ec. tauto.
  - destruct (motorsRunning (ctl w2)) eqn:Em;
      [destruct (MOTOR_RUN_TIME <? _)|];
      unfold consistent, mode_consistent, pins_match;
      cbn [ctl hw continuousMode isFiring motorsRunning pinM1A pinM1B pinM2A pinM2B];
      rewrite ?Ec, ?Em; repeat split; auto; discriminate.
Qed.

Lemma step_keeps_consistent req w :
  consistent w -> consistent (step clock req w).
Proof.
  intros H. rewrite step_eq. apply timers_keep_consistent.
  pose proof (server_handleClient_cases clock req w) as Hcase.
  set (w0 := exec (server_handleClient clock req) w) in *. clearbody w0.
  destruct Hcase; try exact H;
    destruct H as [[Hm1 Hm2] (Hp1 & Hp2 & Hp3 & Hp4)];
    unfold consistent, mode_consistent, pins_match.
  - rewrite handleFire_eq.
    cbn [ctl hw continuousMode isFiring motorsRunning pinM1A pinM1B pinM2A pinM2B].
    repeat split; auto.
  - rewrite handleContinuous_start_eq.
    cbn [ctl hw continuousMode isFiring motorsRunning pinM1A pinM1B pinM2A pinM2B].
    repeat split; auto.
  - rewrite handleContinuous_stop_eq.
    cbn [ctl hw continuousMode isFiring motorsRunning pinM1A pinM1B pinM2A pinM2B].
    repeat split; auto; discriminate.
  - rewrite handleStop_eq.
    cbn [ctl hw continuousMode isFiring motorsRunning pinM1A pinM1B pinM2A pinM2B].
    repeat split; auto; discriminate.
Qed.

Lemma reachable_consistent w : reachable clock w -> consistent w.
Proof.
  induction 1 as [h ip | w req Hw IH].
  - rewrite setup_eq. unfold consistent, mode_consistent, pins_match, power_on.
    cbn [ctl hw continuousMode isFiring motorsRunning pinM1A pinM1B pinM2A pinM2B].
    repeat split; auto; discriminate.
  - apply step_keeps_consistent. exact IH.
Qed.

End Consistency.

(** X1: in every state the sketch can reach, [continuousMode] and [isFiring]
    have the same value, and continuous fire is never on with the motors
    counted as stopped. *)
Theorem reachable_mode_flags_agree :
  forall (clock : nat -> Z) (w : World),
    reachable clock w ->
    continuousMode (ctl w) = isFiring (ctl w) /\
    (continuousMode (ctl w) = true -> motorsRunning (ctl w) = true).
Proof.
  intros clock w Hw. destruct (reachable_consistent clock w Hw) as [H _]. exact H.
Qed.

Lemma reachable_mode_flags_agree_witness :
  let w := run clock_100ms [cmd_start; cmd_fire; cmd_stop; cmd_fire] boot in
  continuousMode (ctl w) = isFiring (ctl w) /\
  (continuousMode (ctl w) = true -> motorsRunning (ctl w) = true).
Proof.
  intros w. apply (reachable_mode_flags_agree clock_100ms w).
  apply reachable_run. apply reachable_boot.
Defined.

(** X2: in every reachable state the motor-driver pins agree with
    [motorsRunning]: driven forward (A high, B low on both motors) while it is
    true, all four low while it is false. *)
Theorem reachable_pins_follow_motorsRunning :
  forall (clock : nat -> Z) (w : World),
    reachable clock w ->
    (motorsRunning (ctl w) = true -> motors_forward (hw w)) /\
    (motorsRunning (ctl w) = false -> motors_low (hw w)).
Proof.
  intros clock w Hw.
  destruct (reachable_consistent clock w Hw) as [_ (H1 & H2 & H3 & H4)].
  unfold motors_forward, motors_low.
  split; intros E; rewrite E in H1, H3; tauto.
Qed.

Lemma reachable_pins_follow_motorsRunning_witness :
  let w := run clock_100ms [cmd_start; cmd_fire; cmd_stop] boot in
  (motorsRunning (ctl w) = true -> motors_forward (hw w)) /\
  (motorsRunning (ctl w) = false -> motors_low (hw w)).
Proof.
  intros w. apply (reachable_pins_follow_motorsRunning clock_100ms w).
  apply reachable_run. apply reachable_boot.
Defined.

(** ** Iterations without effect *)

Section Rest.
Variable clock : nat -> Z.

Lemma step_idle_at_rest w : at_rest w -> step clock idle w = w.
Proof.
  intros (Hc & Hm & Ht). rewrite step_eq.
  change (exec (server_handleClient clock idle) w) with w.
  rewrite (loop_cadence_off clock w Hc).
  rewrite loop_release_eq, Ht.
  rewrite loop_failsafe_eq, Hm, andb_false_r. reflexivity.
Qed.

Lemma run_idle_at_rest n w : at_rest w -> run clock (repeat idle n) w = w.
Proof.
  intros H. induction n as [|n IH]; [reflexivity|].
  cbn [repeat]. rewrite run_cons, step_idle_at_rest by exact H. exact IH.
Qed.

Lemma step_estop_eq w : step clock cmd_estop w = exec handleStop w.
Proof.
  rewrite step_eq.
  change (exec (server_handleClient clock cmd_estop) w) with (exec handleStop w).
  rewrite handleStop_eq.
  rewrite loop_cadence_eq. cbn [ctl continuousMode andb].
  rewrite loop_release_eq. cbn [ctl triggerPressed].
  rewrite loop_failsafe_eq. cbn [ctl continuousMode motorsRunning negb andb].
  reflexivity.
Qed.

End Rest.

(** X3: a state with continuous fire off, the motors counted as stopped and
    the trigger released is a fixed point of [loop] without requests: any
    number of such iterations leaves the whole world as it is, and not even
    the clock is read. *)
Theorem idle_loop_fixes_rest_state :
  forall (clock : nat -> Z) (w : World) (n : nat),
    at_rest w -> run clock (repeat idle n) w = w.
Proof. intros clock w n H. apply run_idle_at_rest. exact H. Qed.

Lemma idle_loop_fixes_rest_state_witness :
  run clock_ms (repeat idle 5) boot = boot.
Proof.
  apply (idle_loop_fixes_rest_state clock_ms boot 5).
  vm_compute. repeat split; reflexivity.
Defined.

(** X4: whatever the pin levels at power-on, [setup] leaves the servo at 0,
    the four motor pins low and nothing armed, has sent no response and read
    no clock; iterations of [loop] without requests then change nothing. *)
Theorem setup_reaches_rest :
  forall (clock : nat -> Z) (h : Hw) (ip : string) (n : nat),
    let w := exec (setup ip) (power_on h) in
    servoAngle (hw w) = 0 /\
    motors_low (hw w) /\
    at_rest w /\
    continuousMode (ctl w) = false /\ isFiring (ctl w) = false /\
    sent w = [] /\
    reads w = 0%nat /\
    run clock (repeat idle n) w = w.
Proof.
  intros clock h ip n w.
  assert (Hr : at_rest w) by (subst w; rewrite setup_eq; repeat split).
  split; [reflexivity|]. split; [subst w; rewrite setup_eq; repeat split|].
  split; [exact Hr|]. repeat (split; [reflexivity|]).
  apply run_idle_at_rest. exact Hr.
Qed.

(** X5: after the iteration that serves an EmergencyStop, iterations
    without requests change nothing at all, from whatever state the stop was
    served in: no pulse, no motor start, no output, no clock reading. *)
Theorem emergency_stop_is_final :
  forall (clock : nat -> Z) (w : World) (n : nat),
    let w1 := step clock cmd_estop w in
    at_rest w1 /\
    run clock (repeat idle n) w1 = w1 /\
    shots (run clock (repeat idle n) w1) = shots w.
Proof.
  intros clock w n w1.
  assert (Hr : at_rest w1).
  { subst w1. rewrite step_estop_eq, handleStop_eq. repeat split. }
  split; [exact Hr|].
  rewrite run_idle_at_rest by exact Hr.
  split; [reflexivity|].
  subst w1. rewrite step_estop_eq, handleStop_eq. reflexivity.
Qed.

(** ** Responses and the control page *)

Section Sent.
Variable clock : nat -> Z.

(** The timer blocks neither read nor write the log of responses. *)
Lemma loop_cadence_with_sent s w :
  exec (loop_cadence clock) (with_sent s w) = with_sent s (exec (loop_cadence clock) w).
Proof.
  rewrite !loop_cadence_eq. unfold with_sent. cbn [ctl hw serialOut sent reads].
  destruct (continuousMode (ctl w) && isFiring (ctl w));
    [destruct (FIRE_INTERVAL <? _)|]; reflexivity.
Qed.

Lemma loop_release_with_sent s w :
  exec (loop_release clock) (with_sent s w) = with_sent s (exec (loop_release clock) w).
Proof.
  rewrite !loop_release_eq. unfold with_sent. cbn [ctl hw serialOut sent reads].
  destruct (triggerPressed (ctl w)); [destruct (TRIGGER_PRESS_TIME <? _)|]; reflexivity.
Qed.

Lemma loop_failsafe_with_sent s w :
  exec (loop_failsafe clock) (with_sent s w) = with_sent s (exec (loop_failsafe clock) w).
Proof.
  rewrite !loop_failsafe_eq. unfold with_sent. cbn [ctl hw serialOut sent reads].
  destruct (negb (continuousMode (ctl w)) && motorsRunning (ctl w));
    [destruct (MOTOR_RUN_TIME <? _)|]; reflexivity.
Qed.

Lemma step_sent req w :
  sent (step clock req w) = sent (exec (server_handleClient clock req) w).
Proof.
  rewrite step_eq.
  set (w0 := exec (server_handleClient clock req) w).
  destruct (loop_cadence_frame clock w0) as (_ & _ & _ & _ & _ & _ & _ & _ & c).
  destruct (loop_release_frame clock (exec (loop_cadence clock) w0))
    as (_ & _ & _ & _ & _ & _ & _ & _ & _ & _ & r).
  destruct (loop_failsafe_frame clock
              (exec (loop_release clock) (exec (loop_cadence clock) w0)))
    as (_ & _ & _ & _ & _ & _ & _ & _ & f).
  congruence.
Qed.

End Sent.

(** X6: serving the control page actuates nothing: the iteration of [loop]
    that serves [/] leaves the globals, the outputs, the Serial log and the
    clock readings exactly as the iteration without request does, and adds the
    one response 200 text/html with the page. *)
Theorem root_page_is_inert :
  forall (clock : nat -> Z) (w : World),
    step clock (Some ReqRoot) w
    = with_sent (mkResponse 200 "text/html" root_html :: sent w) (step clock idle w).
Proof.
  intros clock w. rewrite !step_eq.
  change (exec (server_handleClient clock idle) w) with w.
  change (exec (server_handleClient clock (Some ReqRoot)) w)
    with (with_sent (mkResponse 200 "text/html" root_html :: sent w) w).
  rewrite loop_cadence_with_sent, loop_release_with_sent, loop_failsafe_with_sent.
  reflexivity.
Qed.

(** X7: an iteration of [loop] sends at most one response, the one of the
    handler it runs: the timer blocks send none, an iteration without request
    sends none, and the body of a response sent is one of the six texts of the
    handlers. *)
Theorem iteration_sends_at_most_one_response :
  forall (clock : nat -> Z) (req : option Request) (w : World),
    sent (step clock idle w) = sent w /\
    (sent (step clock req w) = sent w \/
     exists r, sent (step clock req w) = r :: sent w /\ known_body (rbody r)).
Proof.
  intros clock req w. rewrite !step_sent.
  split; [reflexivity|].
  pose proof (server_handleClient_cases clock req w) as Hcase.
  set (w0 := exec (server_handleClient clock req) w) in *. clearbody w0.
  unfold known_body.
  destruct Hcase.
  - left. reflexivity.
  - right. rewrite handleRoot_eq. eexists. split; [reflexivity|].
    left. reflexivity.
  - right. rewrite handleFire_eq. eexists. split; [reflexivity|].
    right; left. reflexivity.
  - right. rewrite handleContinuous_start_eq. eexists. split; [reflexivity|].
    right; right; left. reflexivity.
  - right. rewrite handleContinuous_stop_eq. eexists. split; [reflexivity|].
    right; right; right; left. reflexivity.
  - left. reflexivity.
  - right. rewrite handleContinuous_missing_eq. eexists. split; [reflexivity|].
    right; right; right; right; left. reflexivity.
  - right. rewrite handleStop_eq. eexists. split; [reflexivity|].
    right; right; right; right; right. reflexivity.
Qed.

(** ** Pulses and starts, iteration by iteration *)

Section Accounting.
Variable clock : nat -> Z.

Lemma server_handleClient_shots req w :
  shots (exec (server_handleClient clock req) w)
  = if is_single_fire req then S (shots w) else shots w.
Proof.
  pose proof (server_handleClient_cases clock req w) as Hcase.
  set (w0 := exec (server_handleClient clock req) w) in *. clearbody w0.
  destruct Hcase; reflexivity.
Qed.

Lemma timers_shots w :
  shots (exec (loop_failsafe clock) (exec (loop_release clock) (exec (loop_cadence clock) w)))
  = if cadence_due clock w then S (shots w) else shots w.
Proof.
  set (w1 := exec (loop_cadence clock) w).
  destruct (loop_release_frame clock w1) as (_ & _ & _ & _ & _ & _ & _ & _ & _ & r & _).
  destruct (loop_failsafe_frame clock (exec (loop_release clock) w1))
    as (_ & _ & _ & _ & _ & _ & _ & f & _).
  rewrite f. unfold shots at 1. rewrite r. fold (shots w1).
  apply loop_cadence_shots.
Qed.

Lemma step_shots req w :
  shots (step clock req w)
  = ((if is_single_fire req then 1 else 0)
     + (if cadence_due clock (exec (server_handleClient clock req) w) then 1 else 0)
     + shots w)%nat.
Proof.
  rewrite step_eq, timers_shots, server_handleClient_shots.
  destruct (is_single_fire req), (cadence_due clock _); reflexivity.
Qed.

Lemma step_starts_nothing req w :
  is_fire req = false ->
  (motorsRunning (ctl (step clock req w)) = true -> motorsRunning (ctl w) = true) /\
  (continuousMode (ctl (step clock req w)) = true -> continuousMode (ctl w) = true) /\
  (isFiring (ctl (step clock req w)) = true -> isFiring (ctl w) = true) /\
  (pinM1A (hw (step clock req w)) = HIGH -> pinM1A (hw w) = HIGH) /\
  (pinM2A (hw (step clock req w)) = HIGH -> pinM2A (hw w) = HIGH).
Proof.
  intros Hreq. rewrite step_eq.
  pose proof (server_handleClient_cases clock req w) as Hcase.
  set (w0 := exec (server_handleClient clock req) w) in *.
  assert (H0 : (motorsRunning (ctl w0) = true -> motorsRunning (ctl w) = true) /\
               (continuousMode (ctl w0) = true -> continuousMode (ctl w) = true) /\
               (isFiring (ctl w0) = true -> isFiring (ctl w) = true) /\
               (pinM1A (hw w0) = HIGH -> pinM1A (hw w) = HIGH) /\
               (pinM2A (hw w0) = HIGH -> pinM2A (hw w) = HIGH)).
  { clearbody w0. destruct Hcase; try (cbn in Hreq; discriminate Hreq);
      try (repeat split; intros E; exact E).
    - rewrite handleContinuous_stop_eq.
      cbn [ctl hw motorsRunning continuousMode isFiring pinM1A pinM2A].
      repeat split; intros E; discriminate E.
    - rewrite handleStop_eq.
      cbn [ctl hw motorsRunning continuousMode isFiring pinM1A pinM2A].
      repeat split; intros E; discriminate E. }
  clearbody w0. clear Hcase.
  destruct (loop_cadence_frame clock w0) as (c1 & c2 & c3 & _ & c5 & _ & c7 & _).
  set (w1 := exec (loop_cadence clock) w0) in *.
  destruct (loop_release_frame clock w1) as (r1 & r2 & r3 & _ & _ & r5 & _ & r7 & _).
  set (w2 := exec (loop_release clock) w1) in *.
  destruct (loop_failsafe_frame clock w2) as (f1 & f2 & _).
  assert (Hf : (motorsRunning (ctl (exec (loop_failsafe clock) w2)) = true ->
                motorsRunning (ctl w2) = true) /\
               (pinM1A (hw (exec (loop_failsafe clock) w2)) = HIGH -> pinM1A (hw w2) = HIGH) /\
               (pinM2A (hw (exec (loop_failsafe clock) w2)) = HIGH -> pinM2A (hw w2) = HIGH)).
  { rewrite loop_failsafe_eq.
    destruct (negb (continuousMode (ctl w2)) && motorsRunning (ctl w2));
      [destruct (MOTOR_RUN_TIME <? _)|];
      cbn [ctl hw motorsRunning pinM1A pinM2A];
      repeat split; intros E; try exact E; discriminate E. }
  destruct Hf as (g1 & g2 & g3). destruct H0 as (h1 & h2 & h3 & h4 & h5).
  repeat split; intros E.
  - apply h1. rewrite <- c3, <- r3. apply g1. exact E.
  - apply h2. rewrite <- c1, <- r1, <- f1. exact E.
  - apply h3. rewrite <- c2, <- r2, <- f2. exact E.
  - apply h4. rewrite <- c5, <- r5. apply g2. exact E.
  - apply h5. rewrite <- c7, <- r7. apply g3. exact E.
Qed.

End Accounting.

(** X8: the trigger pulses of one iteration of [loop] are counted exactly:
    one when the iteration serves a FireSingle, plus one when, after the
    handler, continuous fire is on and the cadence test holds; the release
    and the fail-safe blocks and the other handlers issue none. *)
Theorem iteration_pulses_accounted :
  forall (clock : nat -> Z) (req : option Request) (w : World),
    shots (step clock req w)
    = ((if is_single_fire req then 1 else 0)
       + (if cadence_due clock (exec (server_handleClient clock req) w) then 1 else 0)
       + shots w)%nat.
Proof. intros clock req w. apply step_shots. Qed.

(** X9: only a FireSingle or a ContinuousStart starts anything: an
    iteration of [loop] that serves neither never turns [motorsRunning],
    [continuousMode] or [isFiring] from false to true and never raises a
    motor pin that was low. *)
Theorem only_fire_commands_start_motors :
  forall (clock : nat -> Z) (req : option Request) (w : World),
    is_fire req = false ->
    (motorsRunning (ctl (step clock req w)) = true -> motorsRunning (ctl w) = true) /\
    (continuousMode (ctl (step clock req w)) = true -> continuousMode (ctl w) = true) /\
    (isFiring (ctl (step clock req w)) = true -> isFiring (ctl w) = true) /\
    (pinM1A (hw (step clock req w)) = HIGH -> pinM1A (hw w) = HIGH) /\
    (pinM2A (hw (step clock req w)) = HIGH -> pinM2A (hw w) = HIGH).
Proof. intros clock req w H. apply step_starts_nothing. exact H. Qed.

Lemma only_fire_commands_start_motors_witness :
  let w := step clock_100ms cmd_fire boot in
  is_fire (Some ReqRoot) = false /\
  (motorsRunning (ctl (step clock_100ms (Some ReqRoot) w)) = true ->
   motorsRunning (ctl w) = true).
Proof.
  intros w. split; [reflexivity|].
  apply (proj1 (only_fire_commands_start_motors clock_100ms (Some ReqRoot) w eq_refl)).
Defined.

(** ** The pulse of a single shot *)

Section Pulse.
Variable clock : nat -> Z.

Lemma loop_release_keeps_press_time w :
  triggerPressStartTime (ctl (exec (loop_release clock) w))
  = triggerPressStartTime (ctl w).
Proof.
  rewrite loop_release_eq.
  destruct (triggerPressed (ctl w)); [destruct (TRIGGER_PRESS_TIME <? _)|]; reflexivity.
Qed.

(** After a single shot pressed at [t1], with continuous fire off. *)
Lemma pulse_state_after_timers (t1 : Z) w :
  continuousMode (ctl w) = false ->
  triggerPressStartTime (ctl w) = wrap t1 ->
  trigger_tracked w ->
  let w1 := exec (loop_failsafe clock)
              (exec (loop_release clock) (exec (loop_cadence clock) w)) in
  continuousMode (ctl w1) = false /\
  triggerPressStartTime (ctl w1) = wrap t1 /\
  trigger_tracked w1 /\
  shots w1 = shots w.
Proof.
  intros Hc Ht Htr. cbv zeta.
  destruct (timers_no_shot clock w Hc) as [H1 H2].
  split; [exact H1|]. split; [|split; [apply timers_keep_trigger_tracked; exact Htr | exact H2]].
  rewrite (loop_cadence_off clock w Hc).
  destruct (loop_failsafe_frame clock (exec (loop_release clock) w))
    as (_ & _ & _ & _ & f & _).
  rewrite f, loop_release_keeps_press_time. exact Ht.
Qed.

Lemma pulse_state_run (t1 : Z) n :
  forall w,
    continuousMode (ctl w) = false ->
    triggerPressStartTime (ctl w) = wrap t1 ->
    trigger_tracked w ->
    let w1 := run clock (repeat idle n) w in
    continuousMode (ctl w1) = false /\
    triggerPressStartTime (ctl w1) = wrap t1 /\
    trigger_tracked w1 /\
    shots w1 = shots w.
Proof.
  induction n as [|n IH]; intros w Hc Ht Htr; [cbn; tauto|].
  cbn [repeat]. rewrite run_cons. cbv zeta.
  destruct (pulse_state_after_timers t1 w Hc Ht Htr) as (H1 & H2 & H3 & H4).
  destruct (IH (step clock idle w)) as (K1 & K2 & K3 & K4);
    try (rewrite step_eq; assumption).
  repeat split; try assumption.
  rewrite K4, step_eq. exact H4.
Qed.

Lemma single_shot_pulse_released w n :
  continuousMode (ctl w) = false ->
  let w1 := step clock cmd_fire w in
  let w2 := run clock (repeat idle n) w1 in
  let w3 := step clock idle w2 in
  (forall k, (reads w2 <= k < reads w3)%nat ->
             TRIGGER_PRESS_TIME < clock k - clock (S (reads w)) < ULONG_MAX1) ->
  triggerPressed (ctl w3) = false /\
  servoAngle (hw w3) = 0 /\
  shots w3 = S (shots w).
Proof.
  intros Hc w1 w2 w3 Hwin.
  assert (H1 : continuousMode (ctl w1) = false /\
               triggerPressStartTime (ctl w1) = wrap (clock (S (reads w))) /\
               trigger_tracked w1 /\
               shots w1 = S (shots w)).
  { subst w1. rewrite step_eq.
    change (exec (server_handleClient clock cmd_fire) w)
      with (exec (handleFire clock) w).
    rewrite handleFire_eq.
    match goal with
    | |- context [exec (loop_cadence clock) ?u] =>
        destruct (pulse_state_after_timers (clock (S (reads w))) u)
          as (K1 & K2 & K3 & K4)
    end; try reflexivity; try exact Hc.
    repeat split; assumption. }
  destruct H1 as (Hc1 & Ht1 & Htr1 & Hs1).
  destruct (pulse_state_run (clock (S (reads w))) n w1 Hc1 Ht1 Htr1)
    as (Hc2 & Ht2 & Htr2 & Hs2).
  fold w2 in Hc2, Ht2, Htr2, Hs2.
  assert (Hs3 : shots w3 = S (shots w)).
  { subst w3. destruct (step_no_shot clock idle w2 eq_refl Hc2) as [_ E]. congruence. }
  assert (E3 : w3 = exec (loop_failsafe clock) (exec (loop_release clock) w2)).
  { subst w3. rewrite step_eq.
    change (exec (server_handleClient clock idle) w2) with w2.
    rewrite (loop_cadence_off clock w2 Hc2). reflexivity. }
  set (wr := exec (loop_release clock) w2) in *.
  destruct (loop_failsafe_frame clock wr) as (_ & _ & _ & _ & _ & f1 & f2 & _).
  destruct (loop_failsafe_fresh clock wr) as [Hrd _].
  rewrite <- E3 in f1, f2, Hrd.
  assert (Hrel : triggerPressed (ctl wr) = false /\ servoAngle (hw wr) = 0).
  { destruct (triggerPressed (ctl w2)) eqn:Ep.
    - assert (Hk : TRIGGER_PRESS_TIME < clock (reads w2) - clock (S (reads w)) < ULONG_MAX1).
      { apply Hwin. split; [lia|].
        apply Nat.lt_le_trans with (m := reads wr); [|exact Hrd].
        subst wr. rewrite loop_release_eq, Ep.
        destruct (TRIGGER_PRESS_TIME <? _); cbn [reads]; lia. }
      subst wr. rewrite loop_release_eq, Ep, Ht2.
      rewrite usub_exact by (unfold TRIGGER_PRESS_TIME in Hk; lia).
      destruct (Z.ltb_spec TRIGGER_PRESS_TIME (clock (reads w2) - clock (S (reads w))))
        as [_|Hn]; [|lia].
      split; reflexivity.
    - subst wr. rewrite loop_release_eq, Ep. split; [exact Ep|].
      unfold trigger_tracked in Htr2. rewrite Ep in Htr2. exact Htr2. }
  destruct Hrel as [R1 R2].
  split; [congruence|]. split; [congruence | exact Hs3].
Qed.

(** The iteration that serves ContinuousStop leaves the trigger to the
    release timer. *)
Lemma step_stop_trigger w :
  let w1 := step clock cmd_stop w in
  triggerPressed (ctl w1)
  = triggerPressed (ctl w)
    && negb (TRIGGER_PRESS_TIME
             <? usub (wrap (clock (reads w))) (triggerPressStartTime (ctl w))) /\
  (triggerPressed (ctl w1) = true -> servoAngle (hw w1) = servoAngle (hw w)) /\
  triggerPressStartTime (ctl w1) = triggerPressStartTime (ctl w) /\
  motorStartTime (ctl w1) = motorStartTime (ctl w) /\
  lastFireTime (ctl w1) = lastFireTime (ctl w).
Proof.
  cbv zeta. rewrite step_stop_eq, handleContinuous_stop_eq, loop_release_eq.
  cbn [ctl hw reads triggerPressed triggerPressStartTime].
  destruct (triggerPressed (ctl w)); [destruct (TRIGGER_PRESS_TIME <? _)|];
    cbn; repeat split; intros E; try reflexivity; discriminate E.
Qed.

(** Serving ContinuousStart in every iteration keeps pushing the cadence
    back. *)
Lemma run_starts_no_shot n :
  (forall k, 0 <= clock (S k) - clock k <= FIRE_INTERVAL) ->
  forall w, shots (run clock (repeat cmd_start n) w) = shots w.
Proof.
  intros Hgap. induction n as [|n IH]; intros w; [reflexivity|].
  cbn [repeat]. rewrite run_cons, IH, step_shots.
  change (exec (server_handleClient clock cmd_start) w)
    with (exec (handleContinuous clock (Some "start")) w).
  rewrite handleContinuous_start_eq. unfold cadence_due.
  cbn [ctl reads continuousMode isFiring lastFireTime andb is_single_fire cmd_start].
  rewrite usub_wrap.
  pose proof (Hgap (S (reads w))) as Hg.
  rewrite wrap_small by (unfold FIRE_INTERVAL, ULONG_MAX1 in *; lia).
  destruct (Z.ltb_spec FIRE_INTERVAL
              (clock (S (S (reads w))) - clock (S (reads w)))) as [Hlt|_];
    [lia | reflexivity].
Qed.

End Pulse.

(** X10: a single shot served with continuous fire off, and no request
    after it: an iteration of [loop] all of whose clock readings are more
    than [TRIGGER_PRESS_TIME] and less than 2^32 ms after the reading stored
    at the press ends with the trigger released and the servo back at 0, and
    exactly one pulse has been issued since the shot was served. *)
Theorem single_shot_pulse_is_released :
  forall (clock : nat -> Z) (w : World) (n : nat),
    continuousMode (ctl w) = false ->
    let w1 := step clock cmd_fire w in
    let w2 := run clock (repeat idle n) w1 in
    let w3 := step clock idle w2 in
    (forall k, (reads w2 <= k < reads w3)%nat ->
               TRIGGER_PRESS_TIME < clock k - clock (S (reads w)) < ULONG_MAX1) ->
    triggerPressed (ctl w3) = false /\
    servoAngle (hw w3) = 0 /\
    shots w3 = S (shots w).
Proof. intros clock w n Hc. apply single_shot_pulse_released. exact Hc. Qed.

(** X10 on a single shot from [boot] at 100 ms per reading: pressed at
    100 ms, still pressed after the iteration of the shot, released by the
    next one, which reads the clock at 400 ms. *)
Lemma single_shot_pulse_is_released_witness :
  let w2 := run clock_100ms (repeat idle 0) (step clock_100ms cmd_fire boot) in
  let w3 := step clock_100ms idle w2 in
  triggerPressed (ctl w2) = true /\
  triggerPressed (ctl w3) = false /\
  servoAngle (hw w3) = 0 /\
  shots w3 = S (shots boot).
Proof.
  cbv zeta. split; [vm_compute; reflexivity|].
  apply (single_shot_pulse_is_released clock_100ms boot 0).
  - reflexivity.
  - intros k Hk.
    assert (E : k = 4%nat \/ k = 5%nat) by (vm_compute in Hk; lia).
    destruct E; subst k; vm_compute; split; reflexivity.
Defined.

(** X11: ContinuousStop does not release the trigger itself: after the
    iteration that serves it the trigger is still pressed, with the servo
    where it was, unless the pulse was pressed more than [TRIGGER_PRESS_TIME]
    before the reading of the release timer; the three stored times are kept. *)
Theorem continuous_stop_keeps_pulse :
  forall (clock : nat -> Z) (w : World),
    let w1 := step clock cmd_stop w in
    triggerPressed (ctl w1)
    = triggerPressed (ctl w)
      && negb (TRIGGER_PRESS_TIME
               <? usub (wrap (clock (reads w))) (triggerPressStartTime (ctl w))) /\
    (triggerPressed (ctl w1) = true -> servoAngle (hw w1) = servoAngle (hw w)) /\
    triggerPressStartTime (ctl w1) = triggerPressStartTime (ctl w) /\
    motorStartTime (ctl w1) = motorStartTime (ctl w) /\
    lastFireTime (ctl w1) = lastFireTime (ctl w).
Proof. intros clock w. apply step_stop_trigger. Qed.

(** X12: while a ContinuousStart is served in every iteration of [loop] and
    consecutive clock readings are at most [FIRE_INTERVAL] apart, no pulse is
    issued: each start stores a new reading in [lastFireTime] just before the
    cadence test. *)
Theorem repeated_start_defers_cadence :
  forall (clock : nat -> Z) (w : World) (n : nat),
    (forall k, 0 <= clock (S k) - clock k <= FIRE_INTERVAL) ->
    shots (run clock (repeat cmd_start n) w) = shots w.
Proof. intros clock w n H. apply run_starts_no_shot. exact H. Qed.

(** X12 at 100 ms per reading: twenty starts in a row, no pulse, although
    more than two seconds pass. *)
Lemma repeated_start_defers_cadence_witness :
  let w := run clock_100ms (repeat cmd_start 20) boot in
  FIRE_INTERVAL < clock_100ms (reads w) /\
  shots w = shots boot.
Proof.
  cbv zeta. split; [vm_compute; reflexivity|].
  apply (repeated_start_defers_cadence clock_100ms boot 20).
  intros k. unfold clock_100ms, FIRE_INTERVAL. lia.
Defined.

(** ** Minimum durations *)

Section Durations.
Variable clock : nat -> Z.

Lemma server_handleClient_keeps_times req w :
  times_recorded clock w -> times_recorded clock (exec (server_handleClient clock req) w).
Proof.
  intros [Ht Hm].
  pose proof (server_handleClient_cases clock req w) as Hcase.
  set (w0 := exec (server_handleClient clock req) w) in *. clearbody w0.
  destruct Hcase; try (split; assumption); unfold times_recorded.
  - rewrite handleFire_eq.
    cbn [ctl reads triggerPressed triggerPressStartTime motorsRunning motorStartTime].
    split; intros _.
    + exists (S (reads w)). split; [lia | reflexivity].
    + exists (reads w). split; [lia | reflexivity].
  - rewrite handleContinuous_start_eq.
    cbn [ctl reads triggerPressed triggerPressStartTime motorsRunning motorStartTime].
    split.
    + intros E. destruct (Ht E) as (j & Hj & Ej). exists j. split; [lia | exact Ej].
    + intros _. exists (reads w). split; [lia | reflexivity].
  - rewrite handleContinuous_stop_eq.
    cbn [ctl reads triggerPressed triggerPressStartTime motorsRunning motorStartTime].
    split; [exact Ht | intros E; discriminate E].
  - rewrite handleStop_eq.
    cbn [ctl reads triggerPressed triggerPressStartTime motorsRunning motorStartTime].
    split; intros E; discriminate E.
Qed.

Lemma loop_cadence_keeps_times w :
  times_recorded clock w -> times_recorded clock (exec (loop_cadence clock) w).
Proof.
  intros [Ht Hm]. rewrite loop_cadence_eq. unfold times_recorded.
  destruct (continuousMode (ctl w) && isFiring (ctl w));
    [destruct (FIRE_INTERVAL <? _)|];
    cbn [ctl reads triggerPressed triggerPressStartTime motorsRunning motorStartTime].
  - split.
    + intros _. exists (S (reads w)). split; [lia | reflexivity].
    + intros E. destruct (Hm E) as (j & Hj & Ej). exists j. split; [lia | exact Ej].
  - split; intros E; [destruct (Ht E) as (j & Hj & Ej) | destruct (Hm E) as (j & Hj & Ej)];
      exists j; (split; [lia | exact Ej]).
  - split; assumption.
Qed.

Lemma loop_release_keeps_times w :
  times_recorded clock w -> times_recorded clock (exec (loop_release clock) w).
Proof.
  intros [Ht Hm]. rewrite loop_release_eq. unfold times_recorded.
  destruct (triggerPressed (ctl w)) eqn:Ep;
    [destruct (TRIGGER_PRESS_TIME <? _)|];
    cbn [ctl reads triggerPressed triggerPressStartTime motorsRunning motorStartTime].
  - split; [intros E; discriminate E|].
    intros E. destruct (Hm E) as (j & Hj & Ej). exists j. split; [lia | exact Ej].
  - split; intros E; [destruct (Ht eq_refl) as (j & Hj & Ej) | destruct (Hm E) as (j & Hj & Ej)];
      exists j; (split; [lia | exact Ej]).
  - rewrite Ep. split; assumption.
Qed.

Lemma loop_failsafe_keeps_times w :
  times_recorded clock w -> times_recorded clock (exec (loop_failsafe clock) w).
Proof.
  intros [Ht Hm]. rewrite loop_failsafe_eq. unfold times_recorded.
  destruct (negb (continuousMode (ctl w)) && motorsRunning (ctl w));
    [destruct (MOTOR_RUN_TIME <? _)|];
    cbn [ctl reads triggerPressed triggerPressStartTime motorsRunning motorStartTime].
  - split; [|intros E; discriminate E].
    intros E. destruct (Ht E) as (j & Hj & Ej). exists j. split; [lia | exact Ej].
  - split; intros E; [destruct (Ht E) as (j & Hj & Ej) | destruct (Hm E) as (j & Hj & Ej)];
      exists j; (split; [lia | exact Ej]).
  - split; assumption.
Qed.

Lemma reachable_times_recorded w : reachable clock w -> times_recorded clock w.
Proof.
  induction 1 as [h ip | w req Hw IH].
  - rewrite setup_eq. split; intros E; discriminate E.
  - rewrite step_eq.
    apply loop_failsafe_keeps_times, loop_release_keeps_times,
      loop_cadence_keeps_times, server_handleClient_keeps_times.
    exact IH.
Qed.

Lemma release_after_press_time req w :
  (forall i j, (i <= j)%nat -> clock i <= clock j) ->
  reachable clock w ->
  let u := before_release clock req w in
  triggerPressed (ctl u) = true ->
  triggerPressed (ctl (exec (loop_release clock) u)) = false ->
  exists j, (j < reads u)%nat /\
            triggerPressStartTime (ctl u) = wrap (clock j) /\
            TRIGGER_PRESS_TIME < clock (reads u) - clock j.
Proof.
  intros Hmono Hw u Hp Hrel.
  assert (Hinv : times_recorded clock u).
  { subst u. unfold before_release.
    apply loop_cadence_keeps_times, server_handleClient_keeps_times,
      reachable_times_recorded. exact Hw. }
  destruct Hinv as [Ht _]. destruct (Ht Hp) as (j & Hj & Ej).
  exists j. split; [exact Hj|]. split; [exact Ej|].
  rewrite loop_release_eq, Hp in Hrel.
  destruct (Z.ltb_spec TRIGGER_PRESS_TIME
              (usub (wrap (clock (reads u))) (triggerPressStartTime (ctl u))))
    as [Hlt|_]; [|cbn in Hrel; congruence].
  rewrite Ej in Hlt. apply usub_gt_elapsed in Hlt; [exact Hlt|].
  apply Hmono. lia.
Qed.

Lemma failsafe_after_run_time req w :
  (forall i j, (i <= j)%nat -> clock i <= clock j) ->
  reachable clock w ->
  let u := before_failsafe clock req w in
  motorsRunning (ctl u) = true ->
  motorsRunning (ctl (exec (loop_failsafe clock) u)) = false ->
  continuousMode (ctl u) = false /\
  exists j, (j < reads u)%nat /\
            motorStartTime (ctl u) = wrap (clock j) /\
            MOTOR_RUN_TIME < clock (reads u) - clock j.
Proof.
  intros Hmono Hw u Hp Hstop.
  assert (Hinv : times_recorded clock u).
  { subst u. unfold before_failsafe, before_release.
    apply loop_release_keeps_times, loop_cadence_keeps_times,
      server_handleClient_keeps_times, reachable_times_recorded. exact Hw. }
  destruct Hinv as [_ Hm]. destruct (Hm Hp) as (j & Hj & Ej).
  rewrite loop_failsafe_eq, Hp in Hstop.
  destruct (continuousMode (ctl u)); cbn [negb andb] in Hstop; [congruence|].
  split; [reflexivity|].
  exists j. split; [exact Hj|]. split; [exact Ej|].
  destruct (Z.ltb_spec MOTOR_RUN_TIME
              (usub (wrap (clock (reads u))) (motorStartTime (ctl u))))
    as [Hlt|_]; [|cbn in Hstop; congruence].
  rewrite Ej in Hlt. apply usub_gt_elapsed in Hlt; [exact Hlt|].
  apply Hmono. lia.
Qed.

End Durations.

(** X13: a trigger pulse is held for more than [TRIGGER_PRESS_TIME]: on a
    clock that never goes back, whenever the release block of [loop] releases
    the trigger in an iteration from a reachable state, the stored press time
    is a reading taken earlier and the reading of the release test is more
    than [TRIGGER_PRESS_TIME] after it. *)
Theorem pulse_held_for_press_time :
  forall (clock : nat -> Z) (req : option Request) (w : World),
    (forall i j, (i <= j)%nat -> clock i <= clock j) ->
    reachable clock w ->
    let u := before_release clock req w in
    triggerPressed (ctl u) = true ->
    triggerPressed (ctl (exec (loop_release clock) u)) = false ->
    exists j, (j < reads u)%nat /\
              triggerPressStartTime (ctl u) = wrap (clock j) /\
              TRIGGER_PRESS_TIME < clock (reads u) - clock j.
Proof. intros clock req w Hm Hw. apply release_after_press_time; assumption. Qed.

Lemma pulse_held_for_press_time_witness :
  let u := before_release clock_100ms idle (step clock_100ms cmd_fire boot) in
  exists j, (j < reads u)%nat /\
            triggerPressStartTime (ctl u) = wrap (clock_100ms j) /\
            TRIGGER_PRESS_TIME < clock_100ms (reads u) - clock_100ms j.
Proof.
  apply (pulse_held_for_press_time clock_100ms idle (step clock_100ms cmd_fire boot)).
  - intros i j Hij. unfold clock_100ms. lia.
  - apply reach_loop. apply reachable_boot.
  - vm_compute. reflexivity.
  - vm_compute. reflexivity.
Defined.

(** X14: the fail-safe leaves the motors running for more than
    [MOTOR_RUN_TIME]: on a clock that never goes back, whenever the fail-safe
    block of [loop] stops the motors in an iteration from a reachable state,
    continuous fire is off, the stored motor start time is a reading taken
    earlier, and the reading of the fail-safe test is more than
    [MOTOR_RUN_TIME] after it. *)
Theorem motors_run_for_run_time :
  forall (clock : nat -> Z) (req : option Request) (w : World),
    (forall i j, (i <= j)%nat -> clock i <= clock j) ->
    reachable clock w ->
    let u := before_failsafe clock req w in
    motorsRunning (ctl u) = true ->
    motorsRunning (ctl (exec (loop_failsafe clock) u)) = false ->
    continuousMode (ctl u) = false /\
    exists j, (j < reads u)%nat /\
              motorStartTime (ctl u) = wrap (clock j) /\
              MOTOR_RUN_TIME < clock (reads u) - clock j.
Proof. intros clock req w Hm Hw. apply failsafe_after_run_time; assumption. Qed.

Lemma motors_run_for_run_time_witness :
  let u := before_failsafe clock_100ms idle
             (run clock_100ms (cmd_fire :: repeat idle 16) boot) in
  continuousMode (ctl u) = false /\
  exists j, (j < reads u)%nat /\
            motorStartTime (ctl u) = wrap (clock_100ms j) /\
            MOTOR_RUN_TIME < clock_100ms (reads u) - clock_100ms j.
Proof.
  apply (motors_run_for_run_time clock_100ms idle
           (run clock_100ms (cmd_fire :: repeat idle 16) boot)).
  - intros i j Hij. unfold clock_100ms. lia.
  - apply reachable_run. apply reachable_boot.
  - vm_compute. reflexivity.
  - vm_compute. reflexivity.
Defined.

(** ** Lateness of the cadence shots *)

Section Lateness.
Variable clock : nat -> Z.
Variable g : Z.
Hypothesis clock_mono : forall i j, (i <= j)%nat -> clock i <= clock j.
Hypothesis clock_gap : forall k, clock (S k) - clock k <= g.
Hypothesis gap_range : FIRE_INTERVAL + 2 * g < ULONG_MAX1.

Lemma gap_nonneg : 0 <= g.
Proof. pose proof (clock_mono 0 1 ltac:(lia)). pose proof (clock_gap 0%nat). lia. Qed.

Lemma step_shots_le req w : (shots w <= shots (step clock req w))%nat.
Proof. rewrite step_shots. lia. Qed.

Lemma run_shots_le reqs : forall w, (shots w <= shots (run clock reqs w))%nat.
Proof.
  induction reqs as [|req reqs IH]; intros w; [cbn; lia|].
  rewrite run_cons. pose proof (step_shots_le req w). pose proof (IH (step clock req w)). lia.
Qed.

(** The test of a pending cadence compares true elapsed times. *)
Lemma cadence_pending_due k0 w :
  cadence_pending clock g k0 w ->
  cadence_due clock w = (FIRE_INTERVAL <? clock (reads w) - clock k0).
Proof.
  intros (Hc & Hf & Hl & Hk & Hn). unfold cadence_due.
  rewrite Hc, Hf, Hl. cbn [andb].
  rewrite usub_exact; [reflexivity|].
  pose proof (clock_mono k0 (reads w) Hk). lia.
Qed.

(** An iteration without request in which the cadence shot is not yet due
    leaves the cadence pending. *)
Lemma step_idle_keeps_pending k0 w :
  cadence_pending clock g k0 w ->
  shots (step clock idle w) = shots w ->
  cadence_pending clock g k0 (step clock idle w).
Proof.
  intros Hp Hs. pose proof (cadence_pending_due k0 w Hp) as Hd.
  rewrite step_shots in Hs.
  change (exec (server_handleClient clock idle) w) with w in Hs.
  cbn [is_single_fire idle] in Hs.
  destruct (cadence_due clock w) eqn:Edue; [lia|]. clear Hs.
  symmetry in Hd. apply Z.ltb_ge in Hd.
  destruct Hp as (Hc & Hf & Hl & Hk & Hn).
  rewrite step_eq.
  change (exec (server_handleClient clock idle) w) with w.
  assert (E1 : exec (loop_cadence clock) w
               = mkWorld (ctl w) (hw w) (serialOut w) (sent w) (S (reads w))).
  { rewrite loop_cadence_eq, Hc, Hf. cbn [andb].
    unfold cadence_due in Edue. rewrite Hc, Hf in Edue. cbn [andb] in Edue.
    rewrite Edue. reflexivity. }
  set (w1 := exec (loop_cadence clock) w) in *.
  destruct (loop_release_frame clock w1) as (r1 & r2 & _ & _ & r5 & _).
  pose proof (loop_release_reads clock w1) as Hr.
  set (w2 := exec (loop_release clock) w1) in *.
  rewrite loop_failsafe_off by (rewrite r1, E1; exact Hc).
  rewrite E1 in r1, r2, r5, Hr. cbn [ctl reads] in r1, r2, r5, Hr.
  unfold cadence_pending. rewrite r1, r2, r5.
  repeat split; try assumption; [lia|].
  pose proof (clock_gap (reads w)). pose proof (clock_gap (S (reads w))).
  assert (Hcases : reads w2 = S (reads w) \/ reads w2 = S (S (reads w))) by lia.
  destruct Hcases as [E | E]; rewrite E; lia.
Qed.

Lemma run_idle_keeps_pending k0 n :
  forall w,
    cadence_pending clock g k0 w ->
    shots (run clock (repeat idle n) w) = shots w ->
    cadence_pending clock g k0 (run clock (repeat idle n) w).
Proof.
  induction n as [|n IH]; intros w Hp Hs; [exact Hp|].
  cbn [repeat] in *. rewrite run_cons in *.
  pose proof (step_shots_le idle w).
  pose proof (run_shots_le (repeat idle n) (step clock idle w)).
  apply IH; [apply step_idle_keeps_pending; [exact Hp | lia] | lia].
Qed.

(** The iteration in which a pending cadence shot is issued. *)
Lemma step_idle_fires_pending k0 w :
  cadence_pending clock g k0 w ->
  shots (step clock idle w) = S (shots w) ->
  triggerPressStartTime (ctl (step clock idle w)) = wrap (clock (S (reads w))) /\
  FIRE_INTERVAL < clock (reads w) - clock k0 /\
  clock (S (reads w)) - clock k0 <= FIRE_INTERVAL + 3 * g.
Proof.
  intros Hp Hs. pose proof (cadence_pending_due k0 w Hp) as Hd.
  rewrite step_shots in Hs.
  change (exec (server_handleClient clock idle) w) with w in Hs.
  cbn [is_single_fire idle] in Hs.
  destruct (cadence_due clock w) eqn:Edue; [|lia]. clear Hs.
  symmetry in Hd. apply Z.ltb_lt in Hd.
  destruct Hp as (Hc & Hf & Hl & Hk & Hn).
  split; [|split; [exact Hd | pose proof (clock_gap (reads w)); lia]].
  rewrite step_eq.
  change (exec (server_handleClient clock idle) w) with w.
  destruct (loop_failsafe_frame clock (exec (loop_release clock) (exec (loop_cadence clock) w)))
    as (_ & _ & _ & _ & f & _).
  rewrite f, loop_release_keeps_press_time, loop_cadence_eq.
  unfold cadence_due in Edue. apply andb_prop in Edue. destruct Edue as [E1 E2].
  rewrite E1, E2. reflexivity.
Qed.

(** After the iteration of a cadence shot the next one is pending. *)
Lemma cadence_pending_after_shot req w :
  let wa := exec (server_handleClient clock req) w in
  shots (exec (loop_cadence clock) wa) = S (shots wa) ->
  cadence_pending clock g (S (S (reads wa))) (step clock req w).
Proof.
  intros wa Ha. apply cadence_shot_due in Ha. unfold cadence_due in Ha.
  apply andb_prop in Ha. destruct Ha as [Ha1 Ha2].
  pose proof Ha1 as Ha1'. apply andb_prop in Ha1'. destruct Ha1' as [Hc Hf].
  rewrite step_eq. fold wa.
  assert (E1 : exec (loop_cadence clock) wa =
               mkWorld (mkCtl (motorsRunning (ctl wa)) (motorStartTime (ctl wa))
                              (continuousMode (ctl wa)) (isFiring (ctl wa))
                              (wrap (clock (S (S (reads wa)))))
                              (wrap (clock (S (reads wa)))) true)
                       (mkHw 90 (pinM1A (hw wa)) (pinM1B (hw wa))
                             (pinM2A (hw wa)) (pinM2B (hw wa)))
                       (SPrintln "Trigger actuated - dart fired!" :: serialOut wa)
                       (sent wa) (S (S (S (reads wa))))).
  { rewrite loop_cadence_eq, Ha1, Ha2. reflexivity. }
  set (w1 := exec (loop_cadence clock) wa) in *.
  destruct (loop_release_frame clock w1) as (r1 & r2 & _ & _ & r5 & _).
  pose proof (loop_release_reads clock w1) as Hr.
  set (w2 := exec (loop_release clock) w1) in *.
  rewrite E1 in r1, r2, r5, Hr.
  cbn [ctl reads continuousMode isFiring lastFireTime] in r1, r2, r5, Hr.
  rewrite loop_failsafe_off by congruence.
  unfold cadence_pending. rewrite r1, r2, r5.
  repeat split; try assumption; [lia|].
  pose proof gap_nonneg.
  pose proof (clock_gap (S (S (reads wa)))). pose proof (clock_gap (S (S (S (reads wa))))).
  assert (Hcases : reads w2 = S (S (S (reads wa))) \/ reads w2 = S (S (S (S (reads wa)))))
    by lia.
  unfold FIRE_INTERVAL. destruct Hcases as [E | E]; rewrite E; lia.
Qed.

(** From one cadence shot to the next, with no request in between. *)
Lemma next_cadence_shot_bounds req w n :
  let wa := exec (server_handleClient clock req) w in
  let wn := run clock (repeat idle n) (step clock req w) in
  shots (exec (loop_cadence clock) wa) = S (shots wa) ->
  shots wn = shots (step clock req w) ->
  clock (reads wn) - clock (S (reads wa)) <= FIRE_INTERVAL + 3 * g /\
  (shots (step clock idle wn) = S (shots wn) ->
   triggerPressStartTime (ctl (step clock idle wn)) = wrap (clock (S (reads wn))) /\
   FIRE_INTERVAL < clock (S (reads wn)) - clock (S (reads wa)) /\
   clock (S (reads wn)) - clock (S (reads wa)) <= FIRE_INTERVAL + 4 * g).
Proof.
  intros wa wn Ha Hn.
  pose proof (cadence_pending_after_shot req w Ha) as Hp. fold wa in Hp.
  pose proof (run_idle_keeps_pending _ n _ Hp Hn) as Hpn. fold wn in Hpn.
  pose proof (clock_gap (S (reads wa))) as Hg.
  pose proof (clock_mono (S (reads wa)) (S (S (reads wa))) ltac:(lia)) as Hm.
  split.
  - destruct Hpn as (_ & _ & _ & _ & Hb). lia.
  - intros Hs.
    destruct (step_idle_fires_pending _ wn Hpn Hs) as (H1 & H2 & H3).
    pose proof (clock_mono (reads wn) (S (reads wn)) ltac:(lia)).
    split; [exact H1|]. split; lia.
Qed.

End Lateness.

(** Continuous fire from [boot] on a clock of 100 ms per reading, where an
    iteration of [loop] reads the clock four times at most.  The cadence shot
    of the sixth iteration is pressed at 800 ms and a FireSingle served in the
    next iteration is pressed at 1200 ms, with continuous fire on throughout.
    Without any command the cadence shots are pressed at 800, 1600, 2400 and
    3200 ms, eight readings apart: the fourth comes 900 ms after three
    intervals from the first, more than twice the 400 ms that four readings
    span. *)
Lemma C7_counterexample :
  let wa := run clock_100ms (cmd_start :: repeat idle 4) boot in
  let wb := step clock_100ms idle wa in
  let wc := step clock_100ms cmd_fire wb in
  let w2 := run clock_100ms (repeat idle 4) wb in
  let w3 := run clock_100ms (repeat idle 4) w2 in
  let w4 := run clock_100ms (repeat idle 4) w3 in
  (continuousMode (ctl wa) = true /\
   continuousMode (ctl wb) = true /\
   continuousMode (ctl wc) = true /\
   shots wb = S (shots wa) /\
   triggerPressStartTime (ctl wb) = 800 /\
   shots wc = S (shots wb) /\
   triggerPressStartTime (ctl wc) = 1200 /\
   1200 - 800 < FIRE_INTERVAL) /\
  (shots wb = 1%nat /\ triggerPressStartTime (ctl wb) = 800 /\
   shots w2 = 2%nat /\ triggerPressStartTime (ctl w2) = 1600 /\
   shots w3 = 3%nat /\ triggerPressStartTime (ctl w3) = 2400 /\
   shots w4 = 4%nat /\ triggerPressStartTime (ctl w4) = 3200 /\
   reads w3 = 27%nat /\ reads w4 = 35%nat /\
   2 * (4 * 100) < 3200 - (800 + 3 * FIRE_INTERVAL)).
Proof. vm_compute. repeat split; reflexivity. Qed.

(** C7, amended: on a clock that never goes back, two shots issued by the
    cadence block of [loop] are pressed more than [FIRE_INTERVAL] apart,
    whatever requests and iterations come between them; the pulse of a
    FireSingle is outside this bound.  When consecutive readings of the clock
    are at most [g] apart and no request comes after a cadence shot, the next
    cadence shot is late by one iteration at most: as long as it has not been
    issued the clock is at most [FIRE_INTERVAL + 3 * g] past the press, and it
    is pressed more than [FIRE_INTERVAL] and at most [FIRE_INTERVAL + 4 * g]
    after the press before it.  That lateness is per interval and is not made
    up at the next shot, since [lastFireTime] is set anew at each shot. *)
Theorem C7_cadence_spacing_bounds :
  forall (clock : nat -> Z) (g : Z) (w : World)
         (req : option Request) (reqs : list (option Request)) (req' : option Request)
         (n : nat),
    (forall i j, (i <= j)%nat -> clock i <= clock j) ->
    let wa := exec (server_handleClient clock req) w in
    let wb := exec (server_handleClient clock req')
                   (run clock reqs (step clock req w)) in
    let wn := run clock (repeat idle n) (step clock req w) in
    shots (exec (loop_cadence clock) wa) = S (shots wa) ->
    triggerPressStartTime (ctl (exec (loop_cadence clock) wa))
      = wrap (clock (S (reads wa))) /\
    (shots (exec (loop_cadence clock) wb) = S (shots wb) ->
     triggerPressStartTime (ctl (exec (loop_cadence clock) wb))
       = wrap (clock (S (reads wb))) /\
     FIRE_INTERVAL < clock (S (reads wb)) - clock (S (reads wa))) /\
    ((forall k, clock (S k) - clock k <= g) ->
     FIRE_INTERVAL + 2 * g < ULONG_MAX1 ->
     shots wn = shots (step clock req w) ->
     clock (reads wn) - clock (S (reads wa)) <= FIRE_INTERVAL + 3 * g /\
     (shots (step clock idle wn) = S (shots wn) ->
      triggerPressStartTime (ctl (step clock idle wn)) = wrap (clock (S (reads wn))) /\
      FIRE_INTERVAL < clock (S (reads wn)) - clock (S (reads wa)) /\
      clock (S (reads wn)) - clock (S (reads wa)) <= FIRE_INTERVAL + 4 * g)).
Proof.
  intros clock g w req reqs req' n Hmono wa wb wn Ha.
  split; [|split].
  - pose proof Ha as Hdue. apply cadence_shot_due in Hdue. unfold cadence_due in Hdue.
    apply andb_prop in Hdue. destruct Hdue as [H1 H2].
    rewrite loop_cadence_eq, H1, H2. reflexivity.
  - intros Hb.
    destruct (cadence_shots_far_apart clock w req reqs req' Hmono Ha Hb)
      as (_ & H2 & H3 & _).
    split; [exact H2 | exact H3].
  - intros Hgap Hrange Hn.
    apply (next_cadence_shot_bounds clock g Hmono Hgap Hrange req w n Ha Hn).
Qed.

(** C7 on continuous fire from [boot] at 100 ms per reading: the cadence
    shot of the sixth iteration is pressed at 800 ms, the three iterations
    after it issue none, and the next one is pressed at 1600 ms, within
    [FIRE_INTERVAL + 4 * 100] of the first. *)
Lemma C7_cadence_spacing_bounds_witness :
  let w := run clock_100ms (cmd_start :: repeat idle 4) boot in
  let wa := exec (server_handleClient clock_100ms idle) w in
  let wn := run clock_100ms (repeat idle 3) (step clock_100ms idle w) in
  clock_100ms (S (reads wa)) = 800 /\
  clock_100ms (S (reads wn)) = 1600 /\
  triggerPressStartTime (ctl (step clock_100ms idle wn)) = wrap (clock_100ms (S (reads wn))) /\
  FIRE_INTERVAL < clock_100ms (S (reads wn)) - clock_100ms (S (reads wa)) /\
  clock_100ms (S (reads wn)) - clock_100ms (S (reads wa)) <= FIRE_INTERVAL + 4 * 100.
Proof.
  cbv zeta.
  split; [vm_compute; reflexivity|].
  split; [vm_compute; reflexivity|].
  pose proof (C7_cadence_spacing_bounds clock_100ms 100
                (run clock_100ms (cmd_start :: repeat idle 4) boot)
                idle (repeat idle 3) idle 3) as H.
  cbv zeta in H.
  destruct H as (_ & _ & H).
  - intros i j Hij. unfold clock_100ms. lia.
  - vm_compute. reflexivity.
  - destruct H as (_ & H).
    + intros k. unfold clock_100ms. lia.
    + vm_compute. reflexivity.
    + vm_compute. reflexivity.
    + apply H. vm_compute. reflexivity.
Defined.
